(** * projeto_nlp: a shallow embedding of the chunk-selection pipeline

    The development follows the three Python modules of the repository:
    [nlp_pipeline.py] (text normaliser, segmenter, chunk builder, relevance
    selector, statistics), [llm_client.py] (embedding and generation client)
    and [app.py] (the orchestrator [processar_texto]).

    Modelling conventions.
    - A Python [str] is a list of Unicode code points ([list N]); [len] is
      the number of code points.
    - A Python [int] is a [Z].
    - numpy [float64] values (embedding components, similarities) are
      Rocq's primitive binary64 floats.  The sums inside [np.dot] are taken
      left to right.
    - The selection fraction [percentual_selecao] is an exact rational: the
      rounding of the product [len(chunks) * percentual_selecao] is not
      modelled.
    - A chunk is a Python [dict]: a finite map from field names to values.
      Where the code copies and mutates dicts, dict objects live in a store
      and lists hold references to them.
    - The external services (OpenAI client, spaCy model) are fields of an
      environment record; an exception raised by a call is a value [Raise]. *)

From Stdlib Require Import ZArith QArith Qround PrimFloat String Ascii Lia Sorted.
From stdpp Require Import base option list gmap strings.

Local Open Scope Z_scope.

(** ** Python sequences, exceptions *)

Module Py.

(** [s[:n]] for an arbitrary Python integer [n], on strings and lists. *)
Definition slice_to {A} (n : Z) (s : list A) : list A :=
  if 0 <=? n then take (Z.to_nat n) s
  else take (Z.to_nat (Z.of_nat (length s) + n)) s.

(** [int(x)]: truncation towards zero. *)
Definition int (x : Q) : Z := Z.quot (Qnum x) (Z.pos (Qden x)).

(** [sorted(l, key=...)] is stable: an element goes after the earlier
    ones that are not greater and before the later ones that are not
    smaller.  [lt x y] is the comparison [key(x) < key(y)]; with
    [reverse=True] the comparison is taken the other way round and equal
    keys still keep their order. *)
Fixpoint insert_sorted {A} (lt : A → A → bool) (x : A) (l : list A)
    : list A :=
  match l with
  | [] => [x]
  | y :: r => if lt y x then y :: insert_sorted lt x r else x :: l
  end.

Definition sorted {A} (lt : A → A → bool) (l : list A) : list A :=
  foldr (insert_sorted lt) [] l.

Inductive exn :=
  | ValueError (msg : string)
  | IndexError (msg : string)
  | KeyError (msg : string)
  | ImportError (msg : string)
  | Exception (msg : string).

(** [str(e)] *)
Definition str (e : exn) : string :=
  match e with
  | ValueError m | IndexError m | KeyError m | ImportError m
  | Exception m => m
  end.

(** The outcome of a call that may raise. *)
Inductive result (A : Type) :=
  | Ok (a : A)
  | Raise (e : exn).
Global Arguments Ok {A} a.
Global Arguments Raise {A} e.

Global Instance result_ret : MRet result := λ A a, Ok a.
Global Instance result_bind : MBind result := λ A B f m,
  match m with
  | Ok a => f a
  | Raise e => Raise e
  end.

End Py.

(** ** Python strings *)

Module Str.

(** Code points that [str.isspace] accepts; the [\s] class of [re] on
    [str] patterns is the same set. *)
Definition isspace (c : N) : bool :=
  (((9 <=? c) && (c <=? 13)) || ((28 <=? c) && (c <=? 32))
   || (c =? 133) || (c =? 160) || (c =? 5760)
   || ((8192 <=? c) && (c <=? 8202))
   || (c =? 8232) || (c =? 8233) || (c =? 8239) || (c =? 8287)
   || (c =? 12288))%N.

Definition NL : N := 10%N.
Definition TAB : N := 9%N.
Definition SP : N := 32%N.

(** A string literal, read as its code points (Latin-1 range). *)
Definition lit (s : string) : list N :=
  map N_of_ascii (list_ascii_of_string s).

Definition len (s : list N) : Z := Z.of_nat (length s).

(** Truth value of a string: non-empty. *)
Definition truthy (s : list N) : bool :=
  match s with [] => false | _ => true end.

Fixpoint lstrip (s : list N) : list N :=
  match s with
  | [] => []
  | c :: r => if isspace c then lstrip r else s
  end.

Definition rstrip (s : list N) : list N :=
  reverse (lstrip (reverse s)).

(** [s.strip()] *)
Definition strip (s : list N) : list N := rstrip (lstrip s).

(** [s.split(sep)] for a one-character separator. *)
Fixpoint split_on (sep : N) (s : list N) : list (list N) :=
  match s with
  | [] => [[]]
  | c :: r =>
      if (c =? sep)%N then [] :: split_on sep r
      else match split_on sep r with
           | h :: t => (c :: h) :: t
           | [] => [[c]]
           end
  end.

(** [sep.join(parts)] *)
Fixpoint join (sep : list N) (parts : list (list N)) : list N :=
  match parts with
  | [] => []
  | [p] => p
  | p :: ps => p ++ sep ++ join sep ps
  end.

(** [s.split()]: the maximal runs of non-whitespace characters. *)
Fixpoint split_ws_go (cur : list N) (s : list N) : list (list N) :=
  match s with
  | [] => if truthy cur then [cur] else []
  | c :: r =>
      if isspace c
      then (if truthy cur then cur :: split_ws_go [] r else split_ws_go [] r)
      else split_ws_go (cur ++ [c]) r
  end.

Definition split_ws (s : list N) : list (list N) := split_ws_go [] s.

(** [s.rfind(' ')]: index of the last occurrence, or -1. *)
Fixpoint rfind_go (c : N) (s : list N) (i : Z) (last : Z) : Z :=
  match s with
  | [] => last
  | x :: r => rfind_go c r (i + 1) (if (x =? c)%N then i else last)
  end.

Definition rfind (c : N) (s : list N) : Z := rfind_go c s 0 (-1).

(** [t] occurs in [s] as a contiguous substring. *)
Definition substring (t s : list N) : Prop :=
  ∃ pre post, s = pre ++ t ++ post.

End Str.

(** ** The fragment of [re] the pipeline uses

    A pattern is given by its matcher: applied to the character before the
    current position (for look-behind) and to the rest of the subject, it
    returns the length of the match the backtracking engine finds there.
    All patterns of the program match non-empty strings only. *)

Module Re.

Definition matcher := option N → list N → option nat.

(** [re.sub]: scan left to right; where a match of length [S n] starts,
    emit the replacement and skip the [n] following characters. *)
Fixpoint sub_go (m : matcher) (repl : list N) (prev : option N)
    (skip : nat) (s : list N) : list N :=
  match s with
  | [] => []
  | c :: r =>
      match skip with
      | S k => sub_go m repl (Some c) k r
      | O =>
          match m prev s with
          | Some (S n) => repl ++ sub_go m repl (Some c) n r
          | _ => c :: sub_go m repl (Some c) 0%nat r
          end
      end
  end.

Definition sub (m : matcher) (repl s : list N) : list N :=
  sub_go m repl None 0%nat s.

(** [re.split]: the pieces between successive matches. *)
Fixpoint split_go (m : matcher) (prev : option N) (skip : nat)
    (cur : list N) (s : list N) : list (list N) :=
  match s with
  | [] => [cur]
  | c :: r =>
      match skip with
      | S k => split_go m (Some c) k cur r
      | O =>
          match m prev s with
          | Some (S n) => cur :: split_go m (Some c) n [] r
          | _ => split_go m (Some c) 0%nat (cur ++ [c]) r
          end
      end
  end.

Definition split (m : matcher) (s : list N) : list (list N) :=
  split_go m None 0%nat [] s.

Fixpoint take_while (p : N → bool) (s : list N) : list N :=
  match s with
  | c :: r => if p c then c :: take_while p r else []
  | [] => []
  end.

(** Index of the last occurrence of [c] in [s]. *)
Fixpoint last_index (c : N) (s : list N) (i : nat) (last : option nat)
    : option nat :=
  match s with
  | [] => last
  | x :: r => last_index c r (S i) (if (x =? c)%N then Some i else last)
  end.

(** [\n\s*\n]: a newline, then the greedy whitespace run backtracked to
    its last newline. *)
Definition blank_lines : matcher := λ _ s,
  match s with
  | c :: r =>
      if (c =? Str.NL)%N
      then match last_index Str.NL (take_while Str.isspace r) 0%nat None with
           | Some k => Some (k + 2)%nat
           | None => None
           end
      else None
  | [] => None
  end.

(** [ +]: a maximal run of U+0020. *)
Definition spaces : matcher := λ _ s,
  match length (take_while (λ c, (c =? Str.SP)%N) s) with
  | O => None
  | n => Some n
  end.

(** [[\x00-\x08\x0B-\x0C\x0E-\x1F\x7F]] *)
Definition is_control (c : N) : bool :=
  ((c <=? 8) || (c =? 11) || (c =? 12) || ((14 <=? c) && (c <=? 31))
   || (c =? 127))%N.

Definition control : matcher := λ _ s,
  match s with
  | c :: _ => if is_control c then Some 1%nat else None
  | [] => None
  end.

(** [[.!?]], and [[A-Z]] with the accented capitals of the pattern. *)
Definition is_end_punct (c : N) : bool :=
  ((c =? 46) || (c =? 33) || (c =? 63))%N.

Definition is_upper (c : N) : bool :=
  (((65 <=? c) && (c <=? 90))
   || (c =? 193) || (c =? 192) || (c =? 194) || (c =? 195) || (c =? 201)
   || (c =? 200) || (c =? 202) || (c =? 205) || (c =? 207) || (c =? 211)
   || (c =? 212) || (c =? 213) || (c =? 214) || (c =? 218) || (c =? 199)
   || (c =? 209))%N.

(** [(?<=[.!?])\s+(?=[A-Z...])] *)
Definition sentence_end : matcher := λ prev s,
  match prev with
  | Some p =>
      if is_end_punct p
      then let ws := take_while Str.isspace s in
           match length ws, drop (length ws) s with
           | S n, c :: _ => if is_upper c then Some (S n) else None
           | _, _ => None
           end
      else None
  | None => None
  end.

End Re.

(** ** [nlp_pipeline.py]: normaliser, segmenter, statistics *)

Definition limpar_texto (texto : list N) : list N :=
  let texto := Re.sub Re.blank_lines [Str.NL; Str.NL] texto in
  let texto := Re.sub Re.spaces [Str.SP] texto in
  let linhas := map Str.strip (Str.split_on Str.NL texto) in
  let texto := Str.join [Str.NL] linhas in
  let texto := Re.sub Re.control [] texto in
  Str.strip texto.

Definition segmentar_em_paragrafos (texto : list N) : list (list N) :=
  let paragrafos := Re.split Re.blank_lines texto in
  map Str.strip (filter (λ p, Str.truthy (Str.strip p) = true) paragrafos).

Definition segmentar_em_frases (texto : list N) : list (list N) :=
  let frases := Re.split Re.sentence_end texto in
  map Str.strip (filter (λ f, Str.truthy (Str.strip f) = true) frases).

Definition contar_palavras (texto : list N) : Z :=
  Z.of_nat (length (Str.split_ws texto)).

Record estatisticas := {
  num_caracteres : Z;
  num_palavras : Z;
  num_frases : Z;
  num_paragrafos : Z
}.

Definition calcular_estatisticas (texto : list N) : estatisticas :=
  {| num_caracteres := Str.len texto;
     num_palavras := contar_palavras texto;
     num_frases := Z.of_nat (length (segmentar_em_frases texto));
     num_paragrafos := Z.of_nat (length (segmentar_em_paragrafos texto)) |}.

(** ** Values, dicts and the spaCy model *)

Inductive val :=
  | VInt (z : Z)
  | VStr (s : list N)
  | VFloat (x : float).

(** A chunk is a dict with the keys ['indice'], ['texto'], ['tamanho'],
    ['num_palavras'], ['num_sentencas'] and, after selection,
    ['similaridade']. *)
Abbreviation dict := (gmap string val).

(** The loaded spaCy pipeline, reduced to what the program reads from it:
    the texts of [doc.sents]. [None] when [carregar_spacy()] returns
    [None]. *)
Abbreviation spacy_model := (option (list N → list (list N))).

Definition segmentar_em_frases_spacy (nlp : spacy_model) (texto : list N)
    : list (list N) :=
  match nlp with
  | None => segmentar_em_frases texto
  | Some sents =>
      map Str.strip
        (filter (λ s, Str.truthy (Str.strip s) = true) (sents texto))
  end.

(** ** The chunk builder *)

Module Chunker.

(** The local variables of [criar_chunks] that live across iterations. *)
Record estado := {
  chunks : list dict;
  chunk_atual : list N;
  sentencas_no_chunk : list (list N);
  indice_chunk : Z
}.

Definition inicial : estado :=
  {| chunks := []; chunk_atual := []; sentencas_no_chunk := [];
     indice_chunk := 0 |}.

(** The dict appended to [chunks]. *)
Definition novo_chunk (st : estado) : dict :=
  let texto := Str.strip (chunk_atual st) in
  <["indice" := VInt (indice_chunk st)]>
    (<["texto" := VStr texto]>
      (<["tamanho" := VInt (Str.len texto)]>
        (<["num_palavras" := VInt (contar_palavras texto)]>
          (<["num_sentencas" :=
               VInt (Z.of_nat (length (sentencas_no_chunk st)))]> ∅)))).

(** [if chunk_atual.strip(): chunks.append(...); indice_chunk += 1] *)
Definition salvar (st : estado) : estado :=
  if Str.truthy (Str.strip (chunk_atual st))
  then {| chunks := chunks st ++ [novo_chunk st];
          chunk_atual := chunk_atual st;
          sentencas_no_chunk := sentencas_no_chunk st;
          indice_chunk := indice_chunk st + 1 |}
  else st.

(** The inner loop over [reversed(sentencas_no_chunk)]: [insert(0, sent)]
    while the budget allows, [break] at the first sentence that does
    not fit. *)
Fixpoint overlap_loop (overlap : Z) (reversed : list (list N))
    (overlap_sentencas : list (list N)) (overlap_chars : Z)
    : list (list N) :=
  match reversed with
  | [] => overlap_sentencas
  | sent :: rest =>
      if overlap_chars + Str.len sent <=? overlap
      then overlap_loop overlap rest (sent :: overlap_sentencas)
             (overlap_chars + Str.len sent)
      else overlap_sentencas
  end.

Definition overlap_tail (overlap : Z) (sentencas : list (list N))
    : list (list N) :=
  overlap_loop overlap (rev sentencas) [] 0.

(** One iteration of [for sentenca in sentencas]. *)
Definition passo (tamanho_chunk overlap : Z) (st : estado)
    (sentenca : list N) : estado :=
  if Str.len (chunk_atual st) + Str.len sentenca <=? tamanho_chunk
  then {| chunks := chunks st;
          chunk_atual := chunk_atual st ++ sentenca ++ [Str.SP];
          sentencas_no_chunk := sentencas_no_chunk st ++ [sentenca];
          indice_chunk := indice_chunk st |}
  else
    let st := salvar st in
    if (0 <? overlap) && bool_decide (sentencas_no_chunk st ≠ [])
    then
      let overlap_sentencas := overlap_tail overlap (sentencas_no_chunk st) in
      {| chunks := chunks st;
         chunk_atual :=
           Str.join [Str.SP] overlap_sentencas ++ [Str.SP] ++ sentenca
             ++ [Str.SP];
         sentencas_no_chunk := overlap_sentencas ++ [sentenca];
         indice_chunk := indice_chunk st |}
    else
      {| chunks := chunks st;
         chunk_atual := sentenca ++ [Str.SP];
         sentencas_no_chunk := [sentenca];
         indice_chunk := indice_chunk st |}.

(** The loop, then the last chunk. *)
Definition agrupar (tamanho_chunk overlap : Z) (sentencas : list (list N))
    : list dict :=
  chunks (salvar (fold_left (passo tamanho_chunk overlap) sentencas inicial)).

(** The segmentation step: sentences when spaCy is asked for and loaded,
    paragraphs otherwise. *)
Definition segmentar (nlp : spacy_model) (usar_spacy : bool)
    (texto : list N) : list (list N) :=
  if usar_spacy && bool_decide (nlp ≠ None)
  then segmentar_em_frases_spacy nlp texto
  else segmentar_em_paragrafos texto.

End Chunker.

Definition criar_chunks (nlp : spacy_model) (texto : list N)
    (tamanho_chunk overlap : Z) (usar_spacy : bool) : list dict :=
  Chunker.agrupar tamanho_chunk overlap
    (Chunker.segmentar nlp usar_spacy texto).

(** ** Embedding vectors and cosine similarity *)

Module Np.

Local Open Scope float_scope.

Definition zeros (n : nat) : list float := replicate n 0.

(** [np.dot] on one-dimensional arrays; numpy raises [ValueError] when
    the shapes differ. *)
Definition dot (a b : list float) : Py.result float :=
  if bool_decide (length a = length b)
  then Py.Ok (fold_left (λ acc p, acc + p.1 * p.2) (zip a b) 0)
  else Py.Raise (Py.ValueError "shapes not aligned").

(** [np.linalg.norm]: the square root of the sum of squares. *)
Definition norm (a : list float) : float :=
  PrimFloat.sqrt (fold_left (λ acc x, acc + x * x) a 0).

(** numpy does not raise on a division by zero: it emits a
    [RuntimeWarning] and returns an infinity or a NaN.  The division
    records the warning. *)
Inductive warning :=
  | DivideByZero (numerator : float).

Definition div (x y : float) : float * list warning :=
  (x / y, if y =? 0 then [DivideByZero x] else []).

End Np.

(** The value returned, or the exception raised, and the warnings emitted
    on the way. *)
Definition calcular_similaridade_coseno (embedding1 embedding2 : list float)
    : Py.result float * list Np.warning :=
  let norm1 := Np.norm embedding1 in
  let norm2 := Np.norm embedding2 in
  if ((norm1 =? 0) || (norm2 =? 0))%float
  then (Py.Ok 0%float, [])
  else
    match Np.dot embedding1 embedding2 with
    | Py.Raise e => (Py.Raise e, [])
    | Py.Ok d =>
        let '(similaridade, w) := Np.div d (norm1 * norm2)%float in
        (Py.Ok similaridade, w)
    end.

(** ** The store of dict objects *)

Module Store.

(** The store maps a reference to the dict it denotes. *)
Abbreviation t := (gmap positive dict).

Definition get (h : t) (l : positive) : dict := default ∅ (h !! l).

(** [d.copy()]: a new object with the same items. *)
Definition copy (h : t) (l : positive) : positive * t :=
  let l' := fresh (dom h) in
  (l', <[l' := get h l]> h).

(** [d[k] = v] *)
Definition setitem (h : t) (l : positive) (k : string) (v : val) : t :=
  <[l := <[k := v]> (get h l)]> h.

(** Allocation of the dicts a function has just built. *)
Fixpoint alloc_all (h : t) (ds : list dict) : list positive * t :=
  match ds with
  | [] => ([], h)
  | d :: r =>
      let l := fresh (dom h) in
      let '(ls, h') := alloc_all (<[l := d]> h) r in
      (l :: ls, h')
  end.

End Store.

(** ** The relevance selector *)

Module Selector.

(** The dicts of the list [similaridades]. *)
Record item := {
  indice_original : nat;
  chunk : positive;
  similaridade : float
}.

(** [for i, embedding_chunk in enumerate(embeddings_chunks)] *)
Fixpoint similaridades (chunks : list positive)
    (embedding_global : list float) (i : nat)
    (embeddings_chunks : list (list float)) : Py.result (list item) :=
  match embeddings_chunks with
  | [] => Py.Ok []
  | embedding_chunk :: rest =>
      sim ← (calcular_similaridade_coseno embedding_chunk embedding_global).1;
      c ← match chunks !! i with
          | Some c => Py.Ok c
          | None => Py.Raise (Py.IndexError "list index out of range")
          end;
      items ← similaridades chunks embedding_global (S i) rest;
      Py.Ok ({| indice_original := i; chunk := c; similaridade := sim |}
               :: items)
  end.

(** [sorted(similaridades, key=lambda x: x['similaridade'], reverse=True)] *)
Definition ordenar_por_similaridade (l : list item) : list item :=
  Py.sorted (λ x y, PrimFloat.ltb (similaridade y) (similaridade x)) l.

(** [sorted(chunks_selecionados, key=lambda x: x['indice_original'])] *)
Definition ordenar_por_indice (l : list item) : list item :=
  Py.sorted (λ x y, (indice_original x <? indice_original y)%nat) l.

Definition num_selecionar (n : nat) (percentual_selecao : Q) : Z :=
  Z.max 1 (Py.int (inject_Z (Z.of_nat n) * percentual_selecao)%Q).

(** [for item in chunks_selecionados]: copy, then attach the key. *)
Fixpoint montar_resultado (h : Store.t) (selecionados : list item)
    : list positive * Store.t :=
  match selecionados with
  | [] => ([], h)
  | it :: rest =>
      let '(chunk_com_sim, h) := Store.copy h (chunk it) in
      let h := Store.setitem h chunk_com_sim "similaridade"
                 (VFloat (similaridade it)) in
      let '(ls, h) := montar_resultado h rest in
      (chunk_com_sim :: ls, h)
  end.

End Selector.

Definition selecionar_chunks_relevantes (h : Store.t)
    (chunks : list positive) (embeddings_chunks : list (list float))
    (embedding_global : list float) (percentual_selecao : Q)
    : Py.result (list positive) * Store.t :=
  if bool_decide (chunks = []) || bool_decide (embeddings_chunks = [])
  then (Py.Ok chunks, h)
  else
    match Selector.similaridades chunks embedding_global 0 embeddings_chunks with
    | Py.Raise e => (Py.Raise e, h)
    | Py.Ok sims =>
        let ordenadas := Selector.ordenar_por_similaridade sims in
        let n := Selector.num_selecionar (length chunks) percentual_selecao in
        let selecionados := Py.slice_to n ordenadas in
        let selecionados := Selector.ordenar_por_indice selecionados in
        let '(res, h) := Selector.montar_resultado h selecionados in
        (Py.Ok res, h)
    end.

(** ** [llm_client.py] *)

Definition truncar_texto_para_embedding (texto : list N) (max_tokens : Z)
    : list N :=
  let max_chars := max_tokens * 4 in
  if Str.len texto <=? max_chars then texto
  else
    let texto_truncado := Py.slice_to max_chars texto in
    let ultimo_espaco := Str.rfind Str.SP texto_truncado in
    if 0 <? ultimo_espaco
    then Py.slice_to ultimo_espaco texto_truncado
    else texto_truncado.

Module Client.

(** What the program sees of its surroundings.  The two OpenAI endpoints
    answer or raise; [random_rand k] is the [k]-th vector drawn from
    [np.random.rand(1536)]; the prompt templates are the literal text
    blocks of the two f-strings. *)
Record ambiente := {
  OPENAI_DISPONIVEL : bool;
  OPENAI_API_KEY : option (list N);
  embeddings_create : list (list N) → Py.result (list (list float));
  chat_create : list N → Py.result (list N * Z);
  random_rand : nat → list float;
  spacy : spacy_model;
  instrucao_curto : list N;
  instrucao_medio : list N;
  instrucao_longo : list N;
  resumo_inicio : list N;
  resumo_meio : list N;
  resumo_fim : list N;
  simplificacao_inicio : list N;
  simplificacao_fim : list N
}.

(** The requests sent so far and the number of random vectors drawn. *)
Inductive chamada :=
  | EmbeddingsCreate (input : list (list N))
  | ChatCreate (prompt : list N).

Record mundo := {
  chamadas : list chamada;
  sorteios : nat
}.

Definition M (A : Type) : Type := mundo → A * mundo.

Global Instance M_ret : MRet M := λ A a w, (a, w).
Global Instance M_bind : MBind M := λ A B f m w,
  let '(a, w) := m w in f a w.

Definition api_embeddings (amb : ambiente) (input : list (list N))
    : M (Py.result (list (list float))) := λ w,
  (embeddings_create amb input,
   {| chamadas := chamadas w ++ [EmbeddingsCreate input];
      sorteios := sorteios w |}).

Definition api_chat (amb : ambiente) (prompt : list N)
    : M (Py.result (list N * Z)) := λ w,
  (chat_create amb prompt,
   {| chamadas := chamadas w ++ [ChatCreate prompt];
      sorteios := sorteios w |}).

Definition np_random_rand (amb : ambiente) : M (list float) := λ w,
  (random_rand amb (sorteios w),
   {| chamadas := chamadas w; sorteios := S (sorteios w) |}).

Definition inicializar_cliente (amb : ambiente) : Py.result unit :=
  if negb (OPENAI_DISPONIVEL amb)
  then Py.Raise (Py.ImportError "Biblioteca openai nao esta instalada")
  else
    match OPENAI_API_KEY amb with
    | Some (_ :: _) => Py.Ok ()
    | _ => Py.Raise (Py.ValueError "Chave da API da OpenAI nao encontrada")
    end.

Definition gerar_embedding (amb : ambiente) (texto : list N)
    : M (list float) :=
  if negb (OPENAI_DISPONIVEL amb) then np_random_rand amb
  else
    match inicializar_cliente amb with
    | Py.Raise _ => mret (Np.zeros 1536)
    | Py.Ok _ =>
        let texto_limpo := Str.strip texto in
        if negb (Str.truthy texto_limpo) then mret (Np.zeros 1536)
        else
          let texto_limpo := truncar_texto_para_embedding texto_limpo 8000 in
          resposta ← api_embeddings amb [texto_limpo];
          match resposta with
          | Py.Ok (embedding :: _) => mret embedding
          | Py.Ok [] => mret (Np.zeros 1536)
          | Py.Raise _ => mret (Np.zeros 1536)
          end
    end.

Fixpoint sortear (amb : ambiente) (n : nat) : M (list (list float)) :=
  match n with
  | O => mret []
  | S n => v ← np_random_rand amb; vs ← sortear amb n; mret (v :: vs)
  end.

Definition limpar_para_batch (texto : list N) : list N :=
  let texto_limpo := Str.strip texto in
  if Str.truthy texto_limpo
  then truncar_texto_para_embedding texto_limpo 8000
  else Str.lit "texto vazio".

Definition gerar_embeddings_batch (amb : ambiente) (textos : list (list N))
    : M (list (list float)) :=
  if bool_decide (textos = []) then mret []
  else if negb (OPENAI_DISPONIVEL amb) then sortear amb (length textos)
  else
    match inicializar_cliente amb with
    | Py.Raise _ => mret (map (λ _, Np.zeros 1536) textos)
    | Py.Ok _ =>
        let textos_limpos := map limpar_para_batch textos in
        if bool_decide (textos_limpos = [])
        then mret (map (λ _, Np.zeros 1536) textos)
        else
        resposta ← api_embeddings amb textos_limpos;
        match resposta with
        | Py.Ok embeddings => mret embeddings
        | Py.Raise _ => mret (map (λ _, Np.zeros 1536) textos)
        end
    end.

(** [chunk['texto']] *)
Definition texto_de (chunk : dict) : Py.result (list N) :=
  match chunk !! "texto" with
  | Some (VStr t) => Py.Ok t
  | _ => Py.Raise (Py.KeyError "texto")
  end.

Fixpoint textos_de (chunks : list dict) : Py.result (list (list N)) :=
  match chunks with
  | [] => Py.Ok []
  | c :: r => t ← texto_de c; ts ← textos_de r; Py.Ok (t :: ts)
  end.

Definition gerar_embeddings_para_chunks (amb : ambiente)
    (chunks : list dict) : M (Py.result (list (list float))) :=
  if bool_decide (chunks = []) then mret (Py.Ok [])
  else
    match textos_de chunks with
    | Py.Raise e => mret (Py.Raise e)
    | Py.Ok textos => es ← gerar_embeddings_batch amb textos; mret (Py.Ok es)
    end.

(** The loop both prompt builders run over the selected chunks; at most
    [max_chars_chunks = 25000] characters of chunk text. *)
Fixpoint texto_chunks_parts (chunks : list dict) (total_chars : Z)
    : Py.result (list (list N)) :=
  match chunks with
  | [] => Py.Ok []
  | chunk :: rest =>
      chunk_texto ← texto_de chunk;
      if 25000 <? total_chars + Str.len chunk_texto
      then
        let chars_restantes := 25000 - total_chars in
        if 500 <? chars_restantes
        then Py.Ok [Py.slice_to chars_restantes chunk_texto ++ Str.lit "..."]
        else Py.Ok []
      else
        parts ← texto_chunks_parts rest (total_chars + Str.len chunk_texto + 10);
        Py.Ok (chunk_texto :: parts)
  end.

Definition separador : list N :=
  [Str.NL; Str.NL] ++ Str.lit "---" ++ [Str.NL; Str.NL].

(** [instrucoes_tamanho.get(tamanho_resumo, instrucoes_tamanho["Medio"])] *)
Definition instrucoes_tamanho (amb : ambiente) (tamanho_resumo : string)
    : list N :=
  if String.eqb tamanho_resumo "Curto" then instrucao_curto amb
  else if String.eqb tamanho_resumo "Longo" then instrucao_longo amb
  else instrucao_medio amb.

Definition construir_prompt_resumo (amb : ambiente)
    (chunks_selecionados : list dict) (tamanho_resumo : string)
    : Py.result (list N) :=
  parts ← texto_chunks_parts chunks_selecionados 0;
  Py.Ok (resumo_inicio amb ++ instrucoes_tamanho amb tamanho_resumo
           ++ resumo_meio amb
           ++ Str.join separador parts ++ resumo_fim amb).

Definition construir_prompt_simplificacao (amb : ambiente)
    (chunks_selecionados : list dict) : Py.result (list N) :=
  parts ← texto_chunks_parts chunks_selecionados 0;
  Py.Ok (simplificacao_inicio amb ++ Str.join separador parts
           ++ simplificacao_fim amb).

(** The dict [gerar_texto_o4_mini] returns. *)
Record resposta_llm := {
  llm_texto_gerado : list N;
  llm_sucesso : bool;
  llm_erro : option string;
  tokens_usados : Z
}.

Definition falha_llm (e : Py.exn) : resposta_llm :=
  {| llm_texto_gerado := [];
     llm_sucesso := false;
     llm_erro := Some ("Erro ao gerar texto com o4-mini: " +:+ Py.str e);
     tokens_usados := 0 |}.

Definition gerar_texto_o4_mini (amb : ambiente)
    (chunks_selecionados : list dict) (tipo_saida tamanho_resumo : string)
    : M resposta_llm :=
  if negb (OPENAI_DISPONIVEL amb)
  then mret {| llm_texto_gerado := Str.lit "[MODO DE TESTE]";
               llm_sucesso := false;
               llm_erro := Some "Biblioteca openai nao disponivel";
               tokens_usados := 0 |}
  else
    match inicializar_cliente amb with
    | Py.Raise e => mret (falha_llm e)
    | Py.Ok _ =>
        match (if String.eqb tipo_saida "Resumo"
               then construir_prompt_resumo amb chunks_selecionados
                      tamanho_resumo
               else construir_prompt_simplificacao amb chunks_selecionados)
        with
        | Py.Raise e => mret (falha_llm e)
        | Py.Ok prompt =>
            resposta ← api_chat amb prompt;
            match resposta with
            | Py.Raise e => mret (falha_llm e)
            | Py.Ok (content, total_tokens) =>
                mret {| llm_texto_gerado := Str.strip content;
                        llm_sucesso := true;
                        llm_erro := None;
                        tokens_usados := total_tokens |}
            end
        end
    end.

End Client.

(** ** The orchestrator: [processar_texto_completo] and [app.py] *)

Definition processar_texto_completo (nlp : spacy_model) (texto : list N)
    (percentual_selecao : Q) (tamanho_chunk : Z)
    : list N * list dict * estatisticas :=
  let texto_limpo := limpar_texto texto in
  let estatisticas := calcular_estatisticas texto_limpo in
  let chunks := criar_chunks nlp texto_limpo tamanho_chunk 200 true in
  (texto_limpo, chunks, estatisticas).

Module App.

Import Client.

(** The dict [processar_texto] returns; chunk lists hold references into
    the store returned with it. *)
Record resultado := {
  sucesso : bool;
  texto_gerado : list N;
  estatisticas_entrada : option estatisticas;
  estatisticas_saida : option estatisticas;
  chunks : list positive;
  chunks_selecionados : list positive;
  embeddings_info : option (Z * Z);
  erro : option string
}.

(** [except Exception as e: resultado['erro'] = ...] *)
Definition com_excecao (r : resultado) (e : Py.exn) : resultado :=
  {| sucesso := sucesso r;
     texto_gerado := texto_gerado r;
     estatisticas_entrada := estatisticas_entrada r;
     estatisticas_saida := estatisticas_saida r;
     chunks := chunks r;
     chunks_selecionados := chunks_selecionados r;
     embeddings_info := embeddings_info r;
     erro := Some ("Erro durante processamento: " +:+ Py.str e) |}.

(** Etapa 4: the fields written after the generation call. *)
Definition com_resposta (r : resultado) (resposta : resposta_llm)
    : resultado :=
  if llm_sucesso resposta
  then {| sucesso := true;
          texto_gerado := llm_texto_gerado resposta;
          estatisticas_entrada := estatisticas_entrada r;
          estatisticas_saida :=
            Some (calcular_estatisticas (llm_texto_gerado resposta));
          chunks := chunks r;
          chunks_selecionados := chunks_selecionados r;
          embeddings_info := embeddings_info r;
          erro := erro r |}
  else {| sucesso := sucesso r;
          texto_gerado := texto_gerado r;
          estatisticas_entrada := estatisticas_entrada r;
          estatisticas_saida := estatisticas_saida r;
          chunks := chunks r;
          chunks_selecionados := chunks_selecionados r;
          embeddings_info := embeddings_info r;
          erro := llm_erro resposta |}.

Definition processar_texto (amb : ambiente) (texto_entrada : list N)
    (tipo_saida tamanho_resumo : string) (mostrar_detalhes : bool)
    : M (resultado * Store.t) :=
  (* Etapa 1 *)
  let '(texto_limpo, chunks_novos, estatisticas) :=
    processar_texto_completo (spacy amb) texto_entrada (7 # 10) 500 in
  let '(refs, h) := Store.alloc_all ∅ chunks_novos in
  let r1 :=
    {| sucesso := false; texto_gerado := [];
       estatisticas_entrada := Some estatisticas;
       estatisticas_saida := None;
       chunks := refs; chunks_selecionados := [];
       embeddings_info := None; erro := None |} in
  (* Etapa 2 *)
  embedding_global ← gerar_embedding amb texto_limpo;
  embeddings ← gerar_embeddings_para_chunks amb (map (Store.get h) refs);
  match embeddings with
  | Py.Raise e => mret (com_excecao r1 e, h)
  | Py.Ok embeddings_chunks =>
      let r2 :=
        {| sucesso := false; texto_gerado := [];
           estatisticas_entrada := Some estatisticas;
           estatisticas_saida := None;
           chunks := refs; chunks_selecionados := [];
           embeddings_info :=
             Some (Z.of_nat (length embedding_global),
                   Z.of_nat (length embeddings_chunks) + 1);
           erro := None |} in
      (* Etapa 3 *)
      match selecionar_chunks_relevantes h refs embeddings_chunks
              embedding_global (7 # 10) with
      | (Py.Raise e, h) => mret (com_excecao r2 e, h)
      | (Py.Ok selecionados, h) =>
          let r3 :=
            {| sucesso := false; texto_gerado := [];
               estatisticas_entrada := Some estatisticas;
               estatisticas_saida := None;
               chunks := refs; chunks_selecionados := selecionados;
               embeddings_info := embeddings_info r2;
               erro := None |} in
          (* Etapa 4 *)
          resposta ← gerar_texto_o4_mini amb
                       (map (Store.get h) selecionados)
                       tipo_saida tamanho_resumo;
          mret (com_resposta r3 resposta, h)
      end
  end.

End App.

(** * Vocabulary of the properties *)

Module StrSpec.

(** A non-empty string that neither starts nor ends with whitespace. *)
Definition trimmed (s : list N) : Prop :=
  (∃ a r, s = a :: r ∧ Str.isspace a = false)
  ∧ (∃ r b, s = r ++ [b] ∧ Str.isspace b = false).

End StrSpec.

Module NormSpec.

(** Space or tab. *)
Definition is_hspace (c : N) : bool :=
  ((c =? Str.SP) || (c =? Str.TAB))%N.

Definition is_space (c : N) : bool := (c =? Str.SP)%N.

(** [s] has two adjacent characters that both satisfy [p]. *)
Fixpoint has_run2 (p : N → bool) (s : list N) : bool :=
  match s with
  | [] => false
  | a :: r =>
      match r with
      | [] => false
      | b :: _ => (p a && p b) || has_run2 p r
      end
  end.

Definition no_control (s : list N) : Prop :=
  Forall (λ c, Re.is_control c = false) s.

(** No two adjacent spaces. *)
Definition norun (s : list N) : Prop := has_run2 is_space s = false.

End NormSpec.

Module SelectorSpec.

Import Selector.

(** Reference [l'] is a new object of [h']: the dict that the chunk of
    [it], the one at position [indice_original it] of the input list,
    has in [h], with the similarity attached. *)
Definition copia_com_similaridade (h h' : Store.t)
    (chunks : list positive) (l' : positive) (it : item) : Prop :=
  (l' ∉ dom h)
  ∧ chunks !! indice_original it = Some (chunk it)
  ∧ h' !! l' = Some (<["similaridade" := VFloat (similaridade it)]>
                       (Store.get h (chunk it))).

(** The items kept: the first [n] by similarity, back in list order. *)
Definition selecionados (n : Z) (sims : list item) : list item :=
  ordenar_por_indice (Py.slice_to n (ordenar_por_similaridade sims)).



End SelectorSpec.

Module AppSpec.

Import Client App.

(** The failure policy as the specification words it, for one run: if
    the embedding requests raise, the run fails with a message and the
    generation request is never sent. *)
Definition embedding_failure_is_fatal (amb : ambiente)
    (texto_entrada : list N) (tipo_saida tamanho_resumo : string)
    (w : mundo) : Prop :=
  (∀ input, ∃ e, embeddings_create amb input = Py.Raise e) →
  let out := processar_texto amb texto_entrada tipo_saida tamanho_resumo
               false w in
  sucesso out.1.1 = false
  ∧ is_Some (erro out.1.1)
  ∧ ∀ prompt, ChatCreate prompt ∉ chamadas out.2.

Definition has_texto (d : dict) : Prop :=
  ∃ t, d !! "texto" = Some (VStr t).

End AppSpec.

Module TruncSpec.

(** Position [k] of [texto] lies inside a word: the characters on both
    sides of it are not whitespace. *)
Definition mid_word (texto : list N) (k : nat) : Prop :=
  ∃ a b, (0 < k)%nat
    ∧ texto !! (k - 1)%nat = Some a ∧ texto !! k = Some b
    ∧ Str.isspace a = false ∧ Str.isspace b = false.

(** The truncation contract as the specification words it: the text
    itself when it is short enough, else a prefix within the limit that
    does not end inside a word. *)
Definition truncated_at_whitespace (texto : list N) (max_tokens : Z)
    (r : list N) : Prop :=
  (Str.len texto ≤ max_tokens * 4 → r = texto)
  ∧ (max_tokens * 4 < Str.len texto →
     r `prefix_of` texto ∧ Str.len r ≤ max_tokens * 4
     ∧ ¬ mid_word texto (length r)).

End TruncSpec.

Module ChunkerSpec.

Import Chunker.

(** The value of [indice] in every emitted chunk is its position, and the
    running counter is the number of chunks emitted so far. *)
Definition bem_indexado (st : estado) : Prop :=
  indice_chunk st = Z.of_nat (length (chunks st))
  ∧ ∀ i d, chunks st !! i = Some d →
           d !! "indice" = Some (VInt (Z.of_nat i)).

(** Cumulative character count of a list of segments. *)
Definition total_chars (l : list (list N)) : Z :=
  foldr (λ s acc, Str.len s + acc) 0 l.

(** [tail] is what the overlap rule keeps of [sentencas]: a suffix made
    of whole segments, within the budget, that cannot be extended by the
    segment before it. *)
Definition retained_tail (overlap : Z) (sentencas tail : list (list N))
    : Prop :=
  ∃ pre, sentencas = pre ++ tail
    ∧ total_chars tail ≤ overlap
    ∧ ∀ pre' s, pre = pre' ++ [s] → overlap < total_chars tail + Str.len s.

(** Segment [s] occurs in the text of one of the chunks [l]. *)
Definition emitido (s : list N) (l : list dict) : Prop :=
  ∃ d t, d ∈ l ∧ d !! "texto" = Some (VStr t) ∧ Str.substring s t.

(** Segment [s] is in an emitted chunk or in the current buffer. *)
Definition coberto (s : list N) (st : estado) : Prop :=
  emitido s (chunks st) ∨ Str.substring s (chunk_atual st).

End ChunkerSpec.

(** * Inputs used in the examples *)

Module Exemplo.

Definition chunk_de (i : Z) : dict :=
  <["indice" := VInt i]> (<["texto" := VStr (Str.lit "trecho")]> ∅).

(** Five chunks with indices 0..4, in a store of their own. *)
Definition cinco : list positive * Store.t :=
  Store.alloc_all ∅ (map chunk_de [0; 1; 2; 3; 4]).

Definition embeddings_cinco : list (list float) :=
  [[9; 1]; [1; 9]; [7; 5]; [5; 7]; [10; 0]]%float.

Definition embedding_global : list float := [1; 0]%float.

(** The embedding endpoint is down; the chat endpoint answers. *)
Definition amb_falha : Client.ambiente :=
  {| Client.OPENAI_DISPONIVEL := true;
     Client.OPENAI_API_KEY := Some (Str.lit "sk-teste");
     Client.embeddings_create :=
       λ _, Py.Raise (Py.Exception "Connection error.");
     Client.chat_create := λ _, Py.Ok (Str.lit " Resumo gerado. ", 42);
     Client.random_rand := λ _, [];
     Client.spacy := None;
     Client.instrucao_curto := Str.lit "Produza um resumo curto.";
     Client.instrucao_medio := Str.lit "Produza um resumo medio.";
     Client.instrucao_longo := Str.lit "Produza um resumo longo.";
     Client.resumo_inicio := Str.lit "Resuma. ";
     Client.resumo_meio := Str.lit " Trechos: ";
     Client.resumo_fim := Str.lit " Resumo:";
     Client.simplificacao_inicio := Str.lit "Simplifique. Trechos: ";
     Client.simplificacao_fim := Str.lit " Texto simplificado:" |}.

Definition mundo0 : Client.mundo :=
  {| Client.chamadas := []; Client.sorteios := 0 |}.

Definition documento : list N :=
  Str.lit "Primeiro paragrafo do documento de teste, com uma frase."
    ++ [Str.NL; Str.NL]
    ++ Str.lit "Segundo paragrafo do documento de teste.".

End Exemplo.

(** * Further functions of the program *)

(** ** [llm_client.py]: [verificar_disponibilidade_api] *)

Module Verificador.

Import Client.

(** The dict [verificar_disponibilidade_api] returns. *)
Record disponibilidade := {
  biblioteca_instalada : bool;
  chave_configurada : bool;
  api_acessivel : bool;
  mensagem : string
}.

Definition verificar_disponibilidade_api (amb : ambiente)
    : M disponibilidade :=
  if negb (OPENAI_DISPONIVEL amb)
  then mret {| biblioteca_instalada := OPENAI_DISPONIVEL amb;
               chave_configurada := false;
               api_acessivel := false;
               mensagem := "Biblioteca openai nao esta instalada. "
                           +:+ "Execute: pip install openai" |}
  else
    match OPENAI_API_KEY amb with
    | Some (_ :: _) =>
        (* try: *)
        match inicializar_cliente amb with
        | Py.Raise e =>
            mret {| biblioteca_instalada := OPENAI_DISPONIVEL amb;
                    chave_configurada := true;
                    api_acessivel := false;
                    mensagem := "Erro ao acessar API: " +:+ Py.str e |}
        | Py.Ok _ =>
            resposta ← api_embeddings amb [Str.lit "teste"];
            match resposta with
            | Py.Ok _ =>
                mret {| biblioteca_instalada := OPENAI_DISPONIVEL amb;
                        chave_configurada := true;
                        api_acessivel := true;
                        mensagem := "API da OpenAI configurada e acessivel" |}
            | Py.Raise e =>
                mret {| biblioteca_instalada := OPENAI_DISPONIVEL amb;
                        chave_configurada := true;
                        api_acessivel := false;
                        mensagem := "Erro ao acessar API: " +:+ Py.str e |}
            end
        end
    | _ =>
        mret {| biblioteca_instalada := OPENAI_DISPONIVEL amb;
                chave_configurada := false;
                api_acessivel := false;
                mensagem := "Chave da API nao configurada. Defina a "
                            +:+ "variavel de ambiente OPENAI_API_KEY" |}
    end.

End Verificador.

(** ** [nlp_pipeline.py]: [extrair_entidades] *)

Module Ner.












End Ner.

(** * Vocabulary of the further properties *)

Module ChunkSpec.

(** A chunk dict as [criar_chunks] builds it: a stripped, non-empty
    text, its length, its word count and the number of segments that
    went into it. *)
Definition bem_formado (d : dict) : Prop :=
  ∃ t n,
    d !! "texto" = Some (VStr t)
    ∧ StrSpec.trimmed t
    ∧ d !! "tamanho" = Some (VInt (Str.len t))
    ∧ d !! "num_palavras" = Some (VInt (contar_palavras t))
    ∧ d !! "num_sentencas" = Some (VInt n)
    ∧ 1 ≤ n.

(** The loop invariant: the chunks emitted are well formed, and a
    non-empty buffer has contributing segments. *)
Definition inv (st : Chunker.estado) : Prop :=
  Forall bem_formado (Chunker.chunks st)
  ∧ (Chunker.chunk_atual st ≠ [] → Chunker.sentencas_no_chunk st ≠ []).

(** Within the target size, or made of a single segment. *)
Definition dentro_do_limite (tamanho_chunk : Z) (d : dict) : Prop :=
  ∃ t n,
    d !! "texto" = Some (VStr t)
    ∧ d !! "num_sentencas" = Some (VInt n)
    ∧ (Str.len t ≤ tamanho_chunk ∨ n = 1).

(** [chunk['num_sentencas']], 0 when absent. *)
Definition num_sentencas (d : dict) : Z :=
  match d !! "num_sentencas" with
  | Some (VInt n) => n
  | _ => 0
  end.

Definition soma_sentencas (l : list dict) : Z :=
  foldr (λ d acc, num_sentencas d + acc) 0 l.

(** The buffer after the segments [p] were appended one by one. *)
Definition buffer (p : list (list N)) : list N :=
  concat (map (λ s, s ++ [Str.SP]) p).

(** The state of the loop after the segments [p] when all of them fit
    one buffer. *)
Definition um_buffer (p : list (list N)) : Chunker.estado :=
  {| Chunker.chunks := [];
     Chunker.chunk_atual := buffer p;
     Chunker.sentencas_no_chunk := p;
     Chunker.indice_chunk := 0 |}.

(** Without overlap: the emitted chunks respect the limit, the buffer
    does too once its closing space is dropped, and the segments seen
    so far are split between the chunks and the buffer. *)
Definition inv_sem_overlap (tamanho_chunk : Z) (vistos : nat)
    (st : Chunker.estado) : Prop :=
  Forall (dentro_do_limite tamanho_chunk) (Chunker.chunks st)
  ∧ (Chunker.sentencas_no_chunk st = [] → Chunker.chunk_atual st = [])
  ∧ (Chunker.sentencas_no_chunk st ≠ [] →
     ∃ body, Chunker.chunk_atual st = body ++ [Str.SP]
       ∧ Str.truthy (Str.strip (Chunker.chunk_atual st)) = true
       ∧ (Str.len body ≤ tamanho_chunk
          ∨ length (Chunker.sentencas_no_chunk st) = 1%nat))
  ∧ soma_sentencas (Chunker.chunks st)
    + Z.of_nat (length (Chunker.sentencas_no_chunk st))
    = Z.of_nat vistos.

End ChunkSpec.

Module TextSpec.

Definition blank (s : list N) : Prop :=
  Forall (λ c, Str.isspace c = true) s.

End TextSpec.

Module ClientSpec.

Import Client.

(** A text the embedding endpoint accepts: not empty and within the
    32000 characters that stand for 8000 tokens. *)
Definition texto_enviavel (t : list N) : Prop :=
  t ≠ [] ∧ Str.len t ≤ 32000.

(** The requests [w'] has and [w] has not. *)
Definition novos_pedidos (w w' : mundo) (novos : list chamada) : Prop :=
  chamadas w' = chamadas w ++ novos.

End ClientSpec.

Module SelSpec.

(** numpy computes norm 0 for the vector. *)
Definition zero_norm (e : list float) : Prop :=
  (Np.norm e =? 0)%float = true.

(** Reference [l'] is a new object of [h']: the dict of [l] in [h] with
    the similarity [x] attached. *)
Definition copia_de (h h' : Store.t) (l' l : positive) (x : float)
    : Prop :=
  (l' ∉ dom h)
  ∧ h' !! l' = Some (<["similaridade" := VFloat x]> (Store.get h l)).

(** Reference [l'] is the copy of the chunk at some position [i] of the
    input, with the cosine similarity between the embedding at the same
    position and the global embedding. *)
Definition copia_alinhada (h h' : Store.t) (chunks : list positive)
    (embeddings_chunks : list (list float))
    (embedding_global : list float) (l' : positive) : Prop :=
  ∃ (i : nat) l e x,
    chunks !! i = Some l
    ∧ embeddings_chunks !! i = Some e
    ∧ (calcular_similaridade_coseno e embedding_global).1 = Py.Ok x
    ∧ copia_de h h' l' l x.

End SelSpec.

Module RunSpec.

Import Client.

Definition pedido_de_embedding (c : chamada) : Prop :=
  ∃ input, c = EmbeddingsCreate input.

(** No request, or one chat request. *)
Definition no_maximo_um_chat (cs : list chamada) : Prop :=
  cs = [] ∨ ∃ prompt, cs = [ChatCreate prompt].



End RunSpec.

Module StatSpec.

(** Some character of the string is not whitespace. *)
Definition nonblank (s : list N) : Prop :=
  Exists (λ c, Str.isspace c = false) s.

(** Whatever the pattern matches is whitespace. *)
Definition so_espacos (m : Re.matcher) : Prop :=
  ∀ prev s n, m prev s = Some n → TextSpec.blank (take n s).

End StatSpec.


Module NerSpec.

Import Ner.





End NerSpec.

Module Cenario.

(** Both endpoints answer: one vector of dimension 2 per text, and a
    generated text. *)
Definition amb_ok : Client.ambiente :=
  {| Client.OPENAI_DISPONIVEL := true;
     Client.OPENAI_API_KEY := Some (Str.lit "sk-teste");
     Client.embeddings_create :=
       λ input, Py.Ok (map (λ _, [1; 0]%float) input);
     Client.chat_create := Client.chat_create Exemplo.amb_falha;
     Client.random_rand := λ _, [];
     Client.spacy := None;
     Client.instrucao_curto := Client.instrucao_curto Exemplo.amb_falha;
     Client.instrucao_medio := Client.instrucao_medio Exemplo.amb_falha;
     Client.instrucao_longo := Client.instrucao_longo Exemplo.amb_falha;
     Client.resumo_inicio := Client.resumo_inicio Exemplo.amb_falha;
     Client.resumo_meio := Client.resumo_meio Exemplo.amb_falha;
     Client.resumo_fim := Client.resumo_fim Exemplo.amb_falha;
     Client.simplificacao_inicio :=
       Client.simplificacao_inicio Exemplo.amb_falha;
     Client.simplificacao_fim :=
       Client.simplificacao_fim Exemplo.amb_falha |}.

(** The client library is missing. *)
Definition amb_sem_biblioteca : Client.ambiente :=
  {| Client.OPENAI_DISPONIVEL := false;
     Client.OPENAI_API_KEY := None;
     Client.embeddings_create := Client.embeddings_create amb_ok;
     Client.chat_create := Client.chat_create amb_ok;
     Client.random_rand := λ _, [];
     Client.spacy := None;
     Client.instrucao_curto := [];
     Client.instrucao_medio := [];
     Client.instrucao_longo := [];
     Client.resumo_inicio := [];
     Client.resumo_meio := [];
     Client.resumo_fim := [];
     Client.simplificacao_inicio := [];
     Client.simplificacao_fim := [] |}.

End Cenario.

Module CountSpec.

(** After [k] segments: nothing emitted and an empty buffer before the
    first one, and afterwards fewer chunks emitted than segments
    seen. *)
Definition inv_contagem (k : nat) (st : Chunker.estado) : Prop :=
  (k = 0%nat ∧ Chunker.chunks st = [] ∧ Chunker.chunk_atual st = [])
  ∨ (length (Chunker.chunks st) + 1 ≤ k)%nat.

End CountSpec.
(** * Properties *)

(** ** The chunk builder: indices *)

Module ChunkerFacts.

Import Chunker ChunkerSpec.

Lemma novo_chunk_indice st :
  novo_chunk st !! "indice" = Some (VInt (indice_chunk st)).
Proof. unfold novo_chunk. by rewrite lookup_insert_eq. Qed.

Lemma novo_chunk_texto st :
  novo_chunk st !! "texto" = Some (VStr (Str.strip (chunk_atual st))).
Proof.
  unfold novo_chunk.
  rewrite lookup_insert_ne; [|done]. by rewrite lookup_insert_eq.
Qed.

Lemma salvar_cases st :
  (Str.truthy (Str.strip (chunk_atual st)) = true
   ∧ chunks (salvar st) = chunks st ++ [novo_chunk st]
   ∧ indice_chunk (salvar st) = indice_chunk st + 1)
  ∨ (Str.truthy (Str.strip (chunk_atual st)) = false ∧ salvar st = st).
Proof. unfold salvar. destruct (Str.truthy _); [left|right]; done. Qed.

Lemma salvar_chunk_atual st : chunk_atual (salvar st) = chunk_atual st.
Proof. unfold salvar. by destruct (Str.truthy _). Qed.

Lemma salvar_sentencas st :
  sentencas_no_chunk (salvar st) = sentencas_no_chunk st.
Proof. unfold salvar. by destruct (Str.truthy _). Qed.

Lemma bem_indexado_inicial : bem_indexado inicial.
Proof. split; [done|]. intros i d Hi. by destruct i. Qed.

Lemma bem_indexado_salvar st : bem_indexado st → bem_indexado (salvar st).
Proof.
  intros [Hn Hi].
  destruct (salvar_cases st) as [(_ & Hc & Hk)|[_ ->]]; [|done].
  split.
  - rewrite Hc, Hk, length_app. simpl. lia.
  - intros i d. rewrite Hc. intros Hl.
    apply lookup_app_Some in Hl as [Hl|[Hge Hl]]; [by apply Hi|].
    apply list_lookup_singleton_Some in Hl as [Hz <-].
    rewrite novo_chunk_indice, Hn. do 2 f_equal. lia.
Qed.

(** Every branch of [passo] leaves the chunk list of [salvar st] or of
    [st] itself, with the counter that goes with it. *)
Lemma passo_chunks tamanho overlap st sentenca :
  (chunks (passo tamanho overlap st sentenca) = chunks st
   ∧ indice_chunk (passo tamanho overlap st sentenca) = indice_chunk st)
  ∨ (chunks (passo tamanho overlap st sentenca) = chunks (salvar st)
     ∧ indice_chunk (passo tamanho overlap st sentenca)
       = indice_chunk (salvar st)).
Proof.
  unfold passo.
  destruct (_ <=? tamanho); [by left|right].
  by destruct (_ && _).
Qed.

Lemma bem_indexado_passo tamanho overlap st sentenca :
  bem_indexado st → bem_indexado (passo tamanho overlap st sentenca).
Proof.
  intros H.
  destruct (passo_chunks tamanho overlap st sentenca) as [[Hc Hk]|[Hc Hk]];
    unfold bem_indexado; rewrite Hc, Hk.
  - exact H.
  - exact (bem_indexado_salvar st H).
Qed.

Lemma bem_indexado_fold tamanho overlap sentencas st :
  bem_indexado st →
  bem_indexado (fold_left (passo tamanho overlap) sentencas st).
Proof.
  revert st. induction sentencas as [|s l IH]; intros st H; [done|].
  simpl. apply IH. by apply bem_indexado_passo.
Qed.

Lemma indices_of_bem_indexado (l : list dict) :
  (∀ i d, l !! i = Some d → d !! "indice" = Some (VInt (Z.of_nat i))) →
  map (λ d : dict, d !! "indice") l
  = map (λ i, Some (VInt (Z.of_nat i))) (seq 0 (length l)).
Proof.
  intros H. apply list_eq. intros i.
  rewrite !list_lookup_fmap.
  destruct (l !! i) as [d|] eqn:Hl; simpl.
  - rewrite (H _ _ Hl).
    rewrite lookup_seq_lt; [done|]. by eapply lookup_lt_Some.
  - rewrite lookup_seq_ge; [done|]. by apply lookup_ge_None.
Qed.

End ChunkerFacts.

(** C4. The chunks of one pass of [criar_chunks] carry the indices
    0, 1, 2, ... in order: the i-th chunk emitted has ['indice'] = i,
    whatever the text, the target size, the overlap and the outcome of the
    segmentation. *)
Theorem criar_chunks_indices_contiguous (nlp : spacy_model) (texto : list N)
    (tamanho_chunk overlap : Z) (usar_spacy : bool) :
  map (λ d : dict, d !! "indice")
      (criar_chunks nlp texto tamanho_chunk overlap usar_spacy)
  = map (λ i, Some (VInt (Z.of_nat i)))
      (seq 0 (length (criar_chunks nlp texto tamanho_chunk overlap usar_spacy))).
Proof.
  apply ChunkerFacts.indices_of_bem_indexado.
  unfold criar_chunks, Chunker.agrupar.
  apply ChunkerFacts.bem_indexado_salvar, ChunkerFacts.bem_indexado_fold,
    ChunkerFacts.bem_indexado_inicial.
Qed.

(** Three paragraphs, target size 10, overlap 5: three chunks, the second
    and third seeded with the last paragraph of the one before. *)
Example criar_chunks_three_paragraphs :
  map (λ d : dict, (d !! "indice", d !! "texto", d !! "num_sentencas"))
    (criar_chunks None
       (Str.lit "aaaa" ++ [Str.NL; Str.NL] ++ Str.lit "bbbb"
          ++ [Str.NL; Str.NL] ++ Str.lit "cc" ++ [Str.NL; Str.NL]
          ++ Str.lit "dddddddddddd")
       10 5 true)
  = [(Some (VInt 0), Some (VStr (Str.lit "aaaa bbbb")), Some (VInt 2));
     (Some (VInt 1), Some (VStr (Str.lit "bbbb cc")), Some (VInt 2));
     (Some (VInt 2), Some (VStr (Str.lit "cc dddddddddddd")), Some (VInt 2))].
Proof. vm_compute. reflexivity. Qed.

(** ** The chunk builder: overlap *)

Module OverlapFacts.

Import Chunker ChunkerSpec.

Lemma total_chars_app a b :
  total_chars (a ++ b) = total_chars a + total_chars b.
Proof. induction a as [|x a IH]; simpl; [done|]. rewrite IH. lia. Qed.

Lemma total_chars_nonneg l : 0 ≤ total_chars l.
Proof.
  induction l as [|x l IH]; simpl; [done|]. unfold Str.len. lia.
Qed.

(** What the inner loop has accumulated when it stops. *)
Lemma overlap_loop_spec overlap rs acc :
  ∃ taken rest,
    rs = taken ++ rest
    ∧ overlap_loop overlap rs acc (total_chars acc) = rev taken ++ acc
    ∧ (total_chars acc ≤ overlap → total_chars (rev taken ++ acc) ≤ overlap)
    ∧ ∀ s rest', rest = s :: rest' →
        overlap < total_chars (rev taken ++ acc) + Str.len s.
Proof.
  revert acc. induction rs as [|sent rs IH]; intros acc.
  - exists [], []. repeat split; try done.
  - simpl. destruct (total_chars acc + Str.len sent <=? overlap) eqn:Hfit.
    + apply Z.leb_le in Hfit.
      destruct (IH (sent :: acc)) as (taken & rest & -> & Hloop & Hle & Hmax).
      exists (sent :: taken), rest. simpl in Hloop, Hle.
      replace (total_chars acc + Str.len sent)
        with (Str.len sent + total_chars acc) by lia.
      simpl. rewrite <- !app_assoc. simpl.
      repeat split; [done| |done].
      intros _. apply Hle. lia.
    + apply Z.leb_gt in Hfit.
      exists [], (sent :: rs). simpl. repeat split; [done|].
      intros s rest' [= <- <-]. lia.
Qed.

Lemma overlap_tail_retained overlap sentencas :
  0 ≤ overlap →
  retained_tail overlap sentencas (overlap_tail overlap sentencas).
Proof.
  intros Hov. unfold overlap_tail.
  destruct (overlap_loop_spec overlap (rev sentencas) [])
    as (taken & rest & Hrev & Hloop & Hle & Hmax).
  simpl in Hloop. rewrite Hloop, app_nil_r in *.
  exists (rev rest). repeat split.
  - rewrite <- rev_app_distr, <- Hrev. by rewrite rev_involutive.
  - by apply Hle.
  - intros pre' s Hpre. apply (Hmax s (rev pre')).
    rewrite <- (rev_involutive rest), Hpre, rev_app_distr. done.
Qed.

(** When everything fits, everything is kept. *)
Lemma retained_tail_all overlap sentencas tail :
  retained_tail overlap sentencas tail →
  total_chars sentencas ≤ overlap → tail = sentencas.
Proof.
  intros (pre & -> & _ & Hmax) Hall.
  destruct pre as [|x pre'] using rev_ind; [done|].
  specialize (Hmax _ _ eq_refl).
  rewrite !total_chars_app in Hall. simpl in Hall.
  pose proof (total_chars_nonneg pre'). lia.
Qed.

Lemma passo_sentencas_nonempty tamanho overlap st sentenca :
  sentencas_no_chunk (passo tamanho overlap st sentenca) ≠ [].
Proof.
  unfold passo. destruct (_ <=? tamanho); simpl.
  - by destruct (sentencas_no_chunk st).
  - destruct (_ && _); simpl; [|done]. by destruct (overlap_tail _ _).
Qed.

(** In the states the loop goes through, a non-empty buffer has at least
    one contributing segment. *)
Lemma reachable_sentencas tamanho overlap before :
  let st := fold_left (passo tamanho overlap) before inicial in
  chunk_atual st ≠ [] → sentencas_no_chunk st ≠ [].
Proof.
  destruct before as [|s before] using rev_ind; simpl; [done|].
  intros _. rewrite fold_left_app. simpl.
  apply passo_sentencas_nonempty.
Qed.

End OverlapFacts.

(** C3. When [criar_chunks], in a state its loop has reached, emits the
    buffer because the next segment would overflow [tamanho_chunk], and
    [overlap > 0], the new buffer is seeded with the retained tail of the
    emitted chunk's segment list: whole segments taken from the end, within
    the overlap budget, stopping at the first segment that would exceed it.
    The tail comes first in the new buffer, then the overflowing segment.
    If all segments of the emitted chunk fit the budget together, all of
    them are retained. *)
Theorem criar_chunks_overlap_seeding (tamanho_chunk overlap : Z)
    (before : list (list N)) (sentenca : list N) :
  let st := fold_left (Chunker.passo tamanho_chunk overlap) before
              Chunker.inicial in
  let st' := Chunker.passo tamanho_chunk overlap st sentenca in
  tamanho_chunk < Str.len (Chunker.chunk_atual st) + Str.len sentenca →
  Str.truthy (Str.strip (Chunker.chunk_atual st)) = true →
  0 < overlap →
  ∃ tail,
    ChunkerSpec.retained_tail overlap (Chunker.sentencas_no_chunk st) tail
    ∧ (ChunkerSpec.total_chars (Chunker.sentencas_no_chunk st) ≤ overlap →
       tail = Chunker.sentencas_no_chunk st)
    ∧ Chunker.chunks st' = Chunker.chunks st ++ [Chunker.novo_chunk st]
    ∧ Chunker.sentencas_no_chunk st' = tail ++ [sentenca]
    ∧ Chunker.chunk_atual st'
      = Str.join [Str.SP] tail ++ [Str.SP] ++ sentenca ++ [Str.SP].
Proof.
  intros st st' Hover Hemit Hov.
  assert (Hne : Chunker.sentencas_no_chunk st ≠ []).
  { apply OverlapFacts.reachable_sentencas.
    intros Hnil. unfold st in Hemit. by rewrite Hnil in Hemit. }
  exists (Chunker.overlap_tail overlap (Chunker.sentencas_no_chunk st)).
  pose proof (OverlapFacts.overlap_tail_retained overlap
                (Chunker.sentencas_no_chunk st) ltac:(lia)) as Hret.
  split; [done|]. split; [by apply OverlapFacts.retained_tail_all|].
  subst st'. unfold Chunker.passo.
  apply Z.leb_gt in Hover. rewrite Hover.
  apply Z.ltb_lt in Hov. rewrite Hov.
  rewrite ChunkerFacts.salvar_sentencas.
  rewrite bool_decide_eq_true_2 by done. simpl.
  destruct (ChunkerFacts.salvar_cases st) as [(_ & Hc & _)|[Hf _]];
    [|congruence].
  done.
Qed.

Lemma criar_chunks_overlap_seeding_witness :
  let st := fold_left (Chunker.passo 10 5) [Str.lit "aaaa"; Str.lit "bbbb"]
              Chunker.inicial in
  ∃ tail,
    ChunkerSpec.retained_tail 5 (Chunker.sentencas_no_chunk st) tail
    ∧ (ChunkerSpec.total_chars (Chunker.sentencas_no_chunk st) ≤ 5 →
       tail = Chunker.sentencas_no_chunk st)
    ∧ Chunker.chunks (Chunker.passo 10 5 st (Str.lit "cc"))
      = Chunker.chunks st ++ [Chunker.novo_chunk st]
    ∧ Chunker.sentencas_no_chunk (Chunker.passo 10 5 st (Str.lit "cc"))
      = tail ++ [Str.lit "cc"]
    ∧ Chunker.chunk_atual (Chunker.passo 10 5 st (Str.lit "cc"))
      = Str.join [Str.SP] tail ++ [Str.SP] ++ Str.lit "cc" ++ [Str.SP].
Proof.
  apply (criar_chunks_overlap_seeding 10 5
           [Str.lit "aaaa"; Str.lit "bbbb"] (Str.lit "cc")).
  - vm_compute. reflexivity.
  - vm_compute. reflexivity.
  - lia.
Defined.

(** ** Stripping keeps what lies between non-blank characters *)

Module StrFacts.

Import Str StrSpec.

Lemma lstrip_head s :
  lstrip s = [] ∨ ∃ a r, lstrip s = a :: r ∧ isspace a = false.
Proof.
  induction s as [|c s IH]; simpl; [by left|].
  destruct (isspace c) eqn:Hc; [done|]. right. eauto.
Qed.

Lemma lstrip_suffix s : ∃ ws, s = ws ++ lstrip s.
Proof.
  induction s as [|c s [ws IH]]; simpl; [by exists []|].
  destruct (isspace c).
  - exists (c :: ws). simpl. by f_equal.
  - by exists [].
Qed.

Lemma lstrip_keep pre a r :
  isspace a = false → ∃ pre', lstrip (pre ++ a :: r) = pre' ++ a :: r.
Proof.
  intros Ha. induction pre as [|c pre IH]; simpl.
  - rewrite Ha. by exists [].
  - destruct (isspace c); [done|]. by exists (c :: pre).
Qed.

Lemma rstrip_keep r b post :
  isspace b = false → ∃ post', rstrip (r ++ b :: post) = r ++ b :: post'.
Proof.
  intros Hb. unfold rstrip.
  rewrite reverse_app, reverse_cons, <- app_assoc. simpl.
  destruct (lstrip_keep (reverse post) b (reverse r) Hb) as [pre' ->].
  exists (reverse pre').
  rewrite reverse_app, reverse_cons, reverse_involutive, <- app_assoc.
  done.
Qed.

Lemma substring_strip s t :
  trimmed s → substring s t → substring s (strip t).
Proof.
  intros [(a & r0 & Hs0 & Ha) (r1 & b & Hs1 & Hb)] (pre & post & ->).
  unfold strip.
  destruct (lstrip_keep pre a (r0 ++ post) Ha) as [pre' Hl].
  assert (Hl' : lstrip (pre ++ s ++ post) = (pre' ++ r1) ++ b :: post).
  { rewrite <- app_assoc. change (b :: post) with ([b] ++ post).
    rewrite (app_assoc r1), <- Hs1. rewrite Hs0. exact Hl. }
  rewrite Hl'.
  destruct (rstrip_keep (pre' ++ r1) b post Hb) as [post' ->].
  exists pre', post'. rewrite Hs1, <- !app_assoc. done.
Qed.

Lemma strip_trimmed p : truthy (strip p) = true → trimmed (strip p).
Proof.
  unfold strip, rstrip.
  generalize (lstrip_head p). generalize (lstrip p). intros y Hy0 Hne.
  destruct (lstrip_head (reverse y)) as [Hnil|(b & r & Hzb & Hb)].
  { by rewrite Hnil in Hne. }
  destruct (lstrip_suffix (reverse y)) as [ws Hws].
  rewrite Hzb in Hws |- *.
  assert (Hy : y = (reverse r ++ [b]) ++ reverse ws).
  { rewrite <- reverse_cons, <- reverse_app, <- Hws.
    by rewrite reverse_involutive. }
  rewrite reverse_cons.
  split; [|by exists (reverse r), b].
  destruct Hy0 as [Hnil|(a & r' & Hya & Ha)].
  - rewrite Hnil in Hy. by destruct (reverse r).
  - rewrite Hya in Hy.
    destruct (reverse r) as [|c rr]; simpl in *.
    + injection Hy as -> _. by exists b, [].
    + injection Hy as -> _. by exists c, (rr ++ [b]).
Qed.

Lemma trimmed_nonempty s : trimmed s → s ≠ [].
Proof. intros [(a & r & -> & _) _]. done. Qed.

Lemma substring_refl s : substring s s.
Proof. exists [], []. by rewrite app_nil_r. Qed.

Lemma substring_app_l s t u : substring s t → substring s (t ++ u).
Proof.
  intros (pre & post & ->). exists pre, (post ++ u).
  by rewrite <- !app_assoc.
Qed.

Lemma substring_app_r s t u : substring s t → substring s (u ++ t).
Proof.
  intros (pre & post & ->). exists (u ++ pre), post.
  by rewrite <- !app_assoc.
Qed.

Lemma substring_nonempty s t : s ≠ [] → substring s t → t ≠ [].
Proof.
  intros Hs (pre & post & ->) Hnil.
  apply app_eq_nil in Hnil as [_ Hnil]. by apply app_eq_nil in Hnil as [? _].
Qed.

(** The segmenters return trimmed strings. *)
Lemma strip_filter_trimmed (l : list (list N)) :
  Forall trimmed
    (map strip (filter (λ p, truthy (strip p) = true) l)).
Proof.
  apply Forall_forall. intros s Hs.
  apply list_elem_of_fmap in Hs as (p & -> & Hp).
  apply list_elem_of_filter in Hp as [Hp _]. by apply strip_trimmed.
Qed.

End StrFacts.

(** ** The chunk builder: no segment is lost *)

Module CoverageFacts.

Import Chunker ChunkerSpec StrSpec.

Lemma emitido_mono s l l' : emitido s l → emitido s (l ++ l').
Proof.
  intros (d & t & Hd & Ht & Hs). exists d, t. split; [|done].
  apply elem_of_app. by left.
Qed.

Lemma emitido_salvar s st :
  emitido s (chunks st) → emitido s (chunks (salvar st)).
Proof.
  intros H. destruct (ChunkerFacts.salvar_cases st) as [(_ & -> & _)|[_ ->]];
    [by apply emitido_mono|done].
Qed.

(** Saving a buffer that contains a trimmed segment emits it. *)
Lemma coberto_salvar s st :
  trimmed s → coberto s st → emitido s (chunks (salvar st)).
Proof.
  intros Hs [H|H]; [by apply emitido_salvar|].
  pose proof (StrFacts.substring_strip _ _ Hs H) as Hsub.
  pose proof (StrFacts.substring_nonempty _ _
                (StrFacts.trimmed_nonempty _ Hs) Hsub) as Hne.
  destruct (ChunkerFacts.salvar_cases st) as [(_ & -> & _)|[Hf _]].
  - exists (novo_chunk st), (Str.strip (chunk_atual st)).
    split; [|split; [apply ChunkerFacts.novo_chunk_texto|done]].
    apply elem_of_app. right. by apply list_elem_of_singleton.
  - by destruct (Str.strip (chunk_atual st)).
Qed.

Lemma passo_coberto_new tamanho overlap st sentenca :
  coberto sentenca (passo tamanho overlap st sentenca).
Proof.
  right. unfold passo. destruct (_ <=? tamanho); simpl.
  - apply StrFacts.substring_app_r, StrFacts.substring_app_l,
      StrFacts.substring_refl.
  - destruct (_ && _); simpl.
    + apply StrFacts.substring_app_r, (StrFacts.substring_app_r _ _ [Str.SP]),
        StrFacts.substring_app_l, StrFacts.substring_refl.
    + apply StrFacts.substring_app_l, StrFacts.substring_refl.
Qed.

Lemma passo_coberto_old tamanho overlap st sentenca s :
  trimmed s → coberto s st → coberto s (passo tamanho overlap st sentenca).
Proof.
  intros Hs Hc. unfold passo. destruct (_ <=? tamanho).
  - destruct Hc as [Hc|Hc]; [by left|right]. simpl.
    by apply StrFacts.substring_app_l.
  - left. pose proof (coberto_salvar s st Hs Hc).
    by destruct (_ && _).
Qed.

Lemma fold_coberto_old tamanho overlap l st s :
  trimmed s → coberto s st →
  coberto s (fold_left (passo tamanho overlap) l st).
Proof.
  intros Hs. revert st. induction l as [|x l IH]; intros st Hc; [done|].
  simpl. by apply IH, passo_coberto_old.
Qed.

Lemma fold_coberto tamanho overlap l st s :
  Forall trimmed l → s ∈ l →
  coberto s (fold_left (passo tamanho overlap) l st).
Proof.
  intros Hall. revert st.
  induction Hall as [|x l Hx Hall IH]; intros st Hin.
  - by apply elem_of_nil in Hin.
  - simpl. apply elem_of_cons in Hin as [->|Hin]; [|by apply IH].
    by apply fold_coberto_old, passo_coberto_new.
Qed.

Lemma segmentar_trimmed nlp usar_spacy texto :
  Forall trimmed (segmentar nlp usar_spacy texto).
Proof.
  unfold segmentar. destruct (_ && _) eqn:Hb.
  - unfold segmentar_em_frases_spacy. destruct nlp as [sents|].
    + apply StrFacts.strip_filter_trimmed.
    + apply StrFacts.strip_filter_trimmed.
  - apply StrFacts.strip_filter_trimmed.
Qed.

End CoverageFacts.

(** C10. Every segment the segmentation step produces occurs as a
    substring of the text of at least one chunk that [criar_chunks] emits,
    for every positive target size and every non-negative overlap. *)
Theorem criar_chunks_keeps_every_segment (nlp : spacy_model)
    (texto : list N) (tamanho_chunk overlap : Z) (usar_spacy : bool)
    (s : list N) :
  0 < tamanho_chunk →
  0 ≤ overlap →
  s ∈ Chunker.segmentar nlp usar_spacy texto →
  ∃ d t,
    d ∈ criar_chunks nlp texto tamanho_chunk overlap usar_spacy
    ∧ d !! "texto" = Some (VStr t)
    ∧ Str.substring s t.
Proof.
  intros _ _ Hin.
  pose proof (CoverageFacts.segmentar_trimmed nlp usar_spacy texto) as Hall.
  unfold criar_chunks, Chunker.agrupar.
  apply CoverageFacts.coberto_salvar.
  - by apply (proj1 (Forall_forall _ _) Hall).
  - by apply CoverageFacts.fold_coberto.
Qed.

Lemma criar_chunks_keeps_every_segment_witness :
  ∃ d t,
    d ∈ criar_chunks None
          (Str.lit "aaaa" ++ [Str.NL; Str.NL] ++ Str.lit "bbbbbbbb") 10 5 true
    ∧ d !! "texto" = Some (VStr t)
    ∧ Str.substring (Str.lit "bbbbbbbb") t.
Proof.
  apply (criar_chunks_keeps_every_segment None
           (Str.lit "aaaa" ++ [Str.NL; Str.NL] ++ Str.lit "bbbbbbbb")
           10 5 true (Str.lit "bbbbbbbb")).
  - lia.
  - lia.
  - vm_compute. apply list_elem_of_In. right. left. reflexivity.
Defined.

(** ** Truncation before embedding *)

Module TruncFacts.

Import Str.

Lemma rfind_go_spec c s i last :
  (rfind_go c s i last = last ∧ c ∉ s)
  ∨ ∃ k : nat, rfind_go c s i last = i + Z.of_nat k
      ∧ s !! k = Some c
      ∧ ∀ j, (k < j)%nat → s !! j ≠ Some c.
Proof.
  revert i last. induction s as [|x s IH]; intros i last; simpl.
  - left. split; [done|]. apply not_elem_of_nil.
  - destruct (IH (i + 1) (if (x =? c)%N then i else last))
      as [[Hr Hnot]|(k & Hr & Hk & Hlast)].
    + destruct (N.eqb_spec x c) as [->|Hne].
      * right. exists 0%nat. rewrite Hr. repeat split; [lia|].
        intros [|j] Hj; [lia|]. simpl. intros Hs. apply Hnot.
        by eapply list_elem_of_lookup_2.
      * left. split; [done|]. apply not_elem_of_cons. split; congruence.
    + right. exists (S k). rewrite Hr. repeat split; [lia|done|].
      intros [|j] Hj; [lia|]. simpl. apply Hlast. lia.
Qed.

Lemma rfind_spec c s :
  (rfind c s = -1 ∧ c ∉ s)
  ∨ ∃ k : nat, rfind c s = Z.of_nat k
      ∧ s !! k = Some c
      ∧ ∀ j, (k < j)%nat → s !! j ≠ Some c.
Proof.
  unfold rfind. destruct (rfind_go_spec c s 0 (-1)) as [H|(k & ? & ?)];
    [by left|right]. exists k. split; [lia|done].
Qed.

Lemma slice_to_nonneg {A} n (l : list A) :
  0 ≤ n → Py.slice_to n l = take (Z.to_nat n) l.
Proof.
  intros Hn. unfold Py.slice_to. apply Z.leb_le in Hn. by rewrite Hn.
Qed.

Lemma take_prefix {A} n (l : list A) : take n l `prefix_of` l.
Proof. exists (drop n l). by rewrite take_drop. Qed.

End TruncFacts.

(** C5 (as amended). For a non-negative token limit,
    [truncar_texto_para_embedding] returns the text unchanged when it has
    at most [max_tokens * 4] characters.  Otherwise it returns a prefix of
    at most [max_tokens * 4] characters: when one of the first
    [max_tokens * 4] characters, other than the very first, is a space,
    the prefix ends just before the last such space; when none is, the
    prefix is exactly the first [max_tokens * 4] characters, wherever that
    falls. *)
Theorem truncar_texto_para_embedding_cut (texto : list N) (max_tokens : Z) :
  0 ≤ max_tokens →
  let r := truncar_texto_para_embedding texto max_tokens in
  let max_chars := max_tokens * 4 in
  (Str.len texto ≤ max_chars → r = texto)
  ∧ (max_chars < Str.len texto →
     r `prefix_of` texto
     ∧ Str.len r ≤ max_chars
     ∧ ((∃ i : nat, (0 < i)%nat ∧ Z.of_nat i < max_chars
                    ∧ texto !! i = Some Str.SP) →
        texto !! length r = Some Str.SP
        ∧ ∀ j : nat, (length r < j)%nat → Z.of_nat j < max_chars →
                     texto !! j ≠ Some Str.SP)
     ∧ ((∀ i : nat, (0 < i)%nat → Z.of_nat i < max_chars →
                    texto !! i ≠ Some Str.SP) →
        r = take (Z.to_nat max_chars) texto)).
Proof.
  intros Hmax r max_chars. subst r. unfold truncar_texto_para_embedding.
  fold max_chars. split.
  - intros Hle. apply Z.leb_le in Hle. by rewrite Hle.
  - intros Hgt. pose proof Hgt as Hgt'. apply Z.leb_gt in Hgt'. rewrite Hgt'.
    unfold Str.len in Hgt.
    rewrite (TruncFacts.slice_to_nonneg max_chars) by lia.
    set (n := Z.to_nat max_chars).
    assert (Hn : (n < length texto)%nat) by lia.
    assert (Hlen : length (take n texto) = n) by (rewrite length_take; lia).
    destruct (TruncFacts.rfind_spec Str.SP (take n texto))
      as [[Hr Hnot]|(k & Hr & Hk & Hlast)]; rewrite Hr.
    + (* no space among the first [n] characters *)
      simpl. split; [apply TruncFacts.take_prefix|].
      split; [unfold Str.len; lia|]. split; [|done].
      intros (i & Hi0 & Hi & Hsp). exfalso. apply Hnot.
      apply (list_elem_of_lookup_2 _ i). rewrite lookup_take_lt; [done|lia].
    + assert (Hkn : (k < n)%nat).
      { apply lookup_lt_Some in Hk. lia. }
      destruct k as [|k'].
      * (* the only space is the first character *)
        simpl. split; [apply TruncFacts.take_prefix|].
        split; [unfold Str.len; lia|]. split; [|done].
        intros (i & Hi0 & Hi & Hsp). exfalso. apply (Hlast i Hi0).
        rewrite lookup_take_lt; [done|lia].
      * (* cut at the last space *)
        assert (H0 : (0 <? Z.of_nat (S k')) = true) by (apply Z.ltb_lt; lia).
        rewrite H0, TruncFacts.slice_to_nonneg by lia.
        rewrite Nat2Z.id, take_take.
        replace (S k' `min` n)%nat with (S k') by lia.
        assert (Hl : length (take (S k') texto) = S k')
          by (rewrite length_take; lia).
        split; [apply TruncFacts.take_prefix|].
        split; [unfold Str.len; lia|]. rewrite Hl.
        rewrite lookup_take_lt in Hk by lia.
        split.
        -- intros _. split; [done|]. intros j Hj Hjm.
           specialize (Hlast j Hj). rewrite lookup_take_lt in Hlast by lia.
           done.
        -- intros Hno. exfalso. apply (Hno (S k')); [lia|lia|done].
Qed.

Lemma truncar_texto_para_embedding_cut_witness :
  let texto := Str.lit "um dois tres quatro" in
  let r := truncar_texto_para_embedding texto 2 in
  (Str.len texto ≤ 8 → r = texto)
  ∧ (8 < Str.len texto →
     r `prefix_of` texto
     ∧ Str.len r ≤ 8
     ∧ ((∃ i : nat, (0 < i)%nat ∧ Z.of_nat i < 8
                    ∧ texto !! i = Some Str.SP) →
        texto !! length r = Some Str.SP
        ∧ ∀ j : nat, (length r < j)%nat → Z.of_nat j < 8 →
                     texto !! j ≠ Some Str.SP)
     ∧ ((∀ i : nat, (0 < i)%nat → Z.of_nat i < 8 →
                    texto !! i ≠ Some Str.SP) →
        r = take (Z.to_nat 8) texto)).
Proof.
  apply (truncar_texto_para_embedding_cut (Str.lit "um dois tres quatro") 2).
  lia.
Defined.

(** C5 (as stated) fails: a text without a space among its first
    [max_tokens * 4] characters is cut inside a word. *)
Lemma truncar_texto_para_embedding_cuts_mid_word :
  truncar_texto_para_embedding (Str.lit "abcdefghij") 1 = Str.lit "abcd"
  ∧ ¬ TruncSpec.truncated_at_whitespace (Str.lit "abcdefghij") 1
        (truncar_texto_para_embedding (Str.lit "abcdefghij") 1).
Proof.
  split; [reflexivity|].
  intros [_ H]. destruct H as (_ & _ & Hmid); [vm_compute; reflexivity|].
  apply Hmid. exists 100%N, 101%N. repeat split. simpl. lia.
Qed.

(** ** Cosine similarity *)

(** C8. When either vector has zero norm, [calcular_similaridade_coseno]
    returns exactly 0.0 and emits no division warning: no division is
    performed.  Otherwise, for vectors of the same dimension, it returns
    [dot(a,b) / (norm(a) * norm(b))]. *)
Theorem calcular_similaridade_coseno_zero_floor (a b : list float) :
  ((Np.norm a =? 0)%float = true ∨ (Np.norm b =? 0)%float = true →
   calcular_similaridade_coseno a b = (Py.Ok 0%float, []))
  ∧ ((Np.norm a =? 0)%float = false → (Np.norm b =? 0)%float = false →
     length a = length b →
     ∃ d, Np.dot a b = Py.Ok d
       ∧ (calcular_similaridade_coseno a b).1
         = Py.Ok (d / (Np.norm a * Np.norm b))%float).
Proof.
  unfold calcular_similaridade_coseno. split.
  - intros [H|H]; rewrite H; [done|by rewrite orb_true_r].
  - intros Ha Hb Hlen. rewrite Ha, Hb. simpl.
    unfold Np.dot. rewrite bool_decide_eq_true_2 by done.
    eexists. split; [reflexivity|]. unfold Np.div. done.
Qed.

Lemma calcular_similaridade_coseno_zero_floor_witness :
  calcular_similaridade_coseno [0; 0]%float [3; 4]%float
  = (Py.Ok 0%float, [])
  ∧ ∃ d, Np.dot [3; 4]%float [4; 3]%float = Py.Ok d
      ∧ (calcular_similaridade_coseno [3; 4]%float [4; 3]%float).1
        = Py.Ok (d / (Np.norm [3; 4]%float * Np.norm [4; 3]%float))%float.
Proof.
  split.
  - apply (proj1 (calcular_similaridade_coseno_zero_floor
                    [0; 0]%float [3; 4]%float)).
    left. vm_compute. reflexivity.
  - apply (proj2 (calcular_similaridade_coseno_zero_floor
                    [3; 4]%float [4; 3]%float)).
    + vm_compute. reflexivity.
    + vm_compute. reflexivity.
    + reflexivity.
Defined.

(** ** The normaliser *)

(** C7. [limpar_texto] is not idempotent: the control characters go last,
    after the spaces on both sides of one have been left alone, so the
    first pass joins them into a double space that only a second pass
    collapses. *)
Theorem limpar_texto_not_idempotent :
  let texto := Str.lit "a " ++ [0%N] ++ Str.lit " b" in
  limpar_texto texto = Str.lit "a  b"
  ∧ limpar_texto (limpar_texto texto) = Str.lit "a b"
  ∧ limpar_texto (limpar_texto texto) ≠ limpar_texto texto.
Proof. vm_compute. repeat split; discriminate. Qed.

(** C6 (as stated) fails: tabs are horizontal whitespace, and a run of
    tabs comes out of [limpar_texto] as it went in. *)
Lemma limpar_texto_keeps_tab_run :
  let texto := Str.lit "a" ++ [Str.TAB; Str.TAB] ++ Str.lit "b" in
  limpar_texto texto = texto
  ∧ NormSpec.has_run2 NormSpec.is_hspace (limpar_texto texto) = true.
Proof. vm_compute. split; reflexivity. Qed.

Module NormFacts.

Import Str Re NormSpec.

(** *** Which characters the stages can produce *)

Lemma sub_go_Forall (P : N → Prop) m repl prev skip s :
  Forall P repl → Forall P s → Forall P (sub_go m repl prev skip s).
Proof.
  intros Hr Hs. revert prev skip.
  induction Hs as [|c r Hc Hs IH]; intros prev skip; simpl; [done|].
  destruct skip; [|apply IH].
  destruct (m prev (c :: r)) as [[|n]|].
  - constructor; [done|apply IH].
  - apply Forall_app. split; [done|apply IH].
  - constructor; [done|apply IH].
Qed.

Lemma sub_control_clean prev s : no_control (sub_go control [] prev 0 s).
Proof.
  revert prev. induction s as [|c r IH]; intros prev; simpl;
    [constructor|].
  destruct (is_control c) eqn:Hc; simpl; [apply IH|].
  constructor; [done|apply IH].
Qed.

Lemma sub_control_id prev s :
  no_control s → sub_go control [] prev 0 s = s.
Proof.
  intros Hs. revert prev.
  induction Hs as [|c r Hc Hs IH]; intros prev; simpl; [done|].
  rewrite Hc. by rewrite IH.
Qed.

Lemma rstrip_prefix s : ∃ ws, s = rstrip s ++ ws.
Proof.
  unfold rstrip. destruct (StrFacts.lstrip_suffix (reverse s)) as [ws Hws].
  exists (reverse ws). rewrite <- reverse_app, <- Hws.
  by rewrite reverse_involutive.
Qed.

Lemma Forall_strip (P : N → Prop) s : Forall P s → Forall P (strip s).
Proof.
  intros Hs. unfold strip.
  destruct (StrFacts.lstrip_suffix s) as [ws Hws].
  destruct (rstrip_prefix (lstrip s)) as [ws' Hws'].
  rewrite Hws, Hws' in Hs.
  apply Forall_app in Hs as [_ Hs]. by apply Forall_app in Hs as [Hs _].
Qed.

Lemma split_on_nonempty sep s : split_on sep s ≠ [].
Proof.
  destruct s as [|c r]; simpl; [done|].
  destruct (c =? sep)%N; [done|]. by destruct (split_on sep r).
Qed.

Lemma join_split_on sep s : join [sep] (split_on sep s) = s.
Proof.
  induction s as [|c r IH]; simpl; [done|].
  pose proof (split_on_nonempty sep r) as Hne.
  destruct (N.eqb_spec c sep) as [->|Hc].
  - destruct (split_on sep r) as [|h t]; [done|]. simpl in *.
    by rewrite IH.
  - destruct (split_on sep r) as [|h t]; [done|].
    destruct t as [|h' t]; simpl in *; by rewrite <- IH.
Qed.

Lemma Forall_join (P : N → Prop) sep parts :
  Forall P sep → Forall (Forall P) parts → Forall P (join sep parts).
Proof.
  intros Hsep Hparts.
  induction Hparts as [|p ps Hp Hps IH]; simpl; [done|].
  destruct ps as [|q ps]; [done|].
  apply Forall_app. split; [done|]. apply Forall_app. by split.
Qed.

Lemma Forall_join_inv (P : N → Prop) sep parts :
  Forall P (join sep parts) → Forall (Forall P) parts.
Proof.
  induction parts as [|p ps IH]; simpl; intros H; [done|].
  destruct ps as [|q ps]; [by repeat constructor|].
  apply Forall_app in H as [Hp H]. apply Forall_app in H as [_ H].
  constructor; [done|by apply IH].
Qed.

Lemma Forall_lines (P : N → Prop) s :
  P NL → Forall P s →
  Forall P (join [NL] (map strip (split_on NL s))).
Proof.
  intros HNL Hs. apply Forall_join; [by repeat constructor|].
  apply Forall_fmap.
  rewrite <- (join_split_on NL s) in Hs. apply Forall_join_inv in Hs.
  eapply Forall_impl; [exact Hs|]. intros p Hp. by apply Forall_strip.
Qed.

(** *** Adjacent spaces *)

Lemma norun_cons c s :
  norun s → (∀ d r, s = d :: r → is_space c && is_space d = false) →
  norun (c :: s).
Proof.
  unfold norun. intros Hs Hd. destruct s as [|d r]; [done|].
  simpl in *. rewrite (Hd d r eq_refl). done.
Qed.

Lemma norun_cons_inv c s : norun (c :: s) → norun s.
Proof.
  unfold norun. destruct s as [|d r]; [done|]. simpl.
  intros H. by apply orb_false_iff in H as [_ H].
Qed.

Lemma norun_app_inv a b : norun (a ++ b) → norun a ∧ norun b.
Proof.
  induction a as [|c a IH]; simpl; intros H; [done|].
  destruct (IH (norun_cons_inv _ _ H)) as [Ha Hb]. split; [|done].
  apply norun_cons; [done|]. intros d r ->.
  unfold norun in H. simpl in H. by apply orb_false_iff in H as [H _].
Qed.

Lemma norun_sep a b : norun a → norun b → norun (a ++ NL :: b).
Proof.
  intros Ha Hb. induction a as [|c a IH]; simpl.
  - apply norun_cons; [done|]. by intros d r _.
  - apply norun_cons; [apply IH; by eapply norun_cons_inv|].
    intros d r Hd. destruct a as [|e a]; simpl in Hd.
    + injection Hd as <- _. by rewrite andb_false_r.
    + injection Hd as <- _. unfold norun in Ha. simpl in Ha.
      by apply orb_false_iff in Ha as [Ha _].
Qed.

Lemma norun_strip s : norun s → norun (strip s).
Proof.
  intros Hs. unfold strip.
  destruct (StrFacts.lstrip_suffix s) as [ws Hws].
  destruct (rstrip_prefix (lstrip s)) as [ws' Hws'].
  rewrite Hws, Hws' in Hs.
  apply norun_app_inv in Hs as [_ Hs]. by apply norun_app_inv in Hs as [Hs _].
Qed.

Lemma norun_join parts :
  Forall norun parts → norun (join [NL] parts).
Proof.
  intros H. induction H as [|p ps Hp Hps IH]; simpl; [done|].
  destruct ps as [|q ps]; [done|]. by apply norun_sep.
Qed.

Lemma norun_join_inv parts :
  norun (join [NL] parts) → Forall norun parts.
Proof.
  induction parts as [|p ps IH]; simpl; intros H; [done|].
  destruct ps as [|q ps]; [by repeat constructor|].
  apply norun_app_inv in H as [Hp H].
  constructor; [done|]. apply IH. by eapply norun_cons_inv.
Qed.

Lemma norun_lines s :
  norun s → norun (join [NL] (map strip (split_on NL s))).
Proof.
  intros Hs. apply norun_join, Forall_fmap.
  rewrite <- (join_split_on NL s) in Hs. apply norun_join_inv in Hs.
  eapply Forall_impl; [exact Hs|]. intros p Hp. by apply norun_strip.
Qed.

(** The pattern [ +] leaves no two adjacent spaces: a match swallows the
    whole run, so what follows its replacement is not a space. *)
Lemma sub_spaces_norun s : ∀ prev,
  norun (sub_go spaces [SP] prev 0 s)
  ∧ (norun (sub_go spaces [SP] prev (length (take_while is_space s)) s)
     ∧ ∀ c r, sub_go spaces [SP] prev (length (take_while is_space s)) s
              = c :: r → is_space c = false).
Proof.
  induction s as [|c s IH]; intros prev; [done|].
  destruct (IH (Some c)) as (IH0 & IHk & IHhd).
  assert (Hm : spaces prev (c :: s)
               = match length (take_while is_space (c :: s)) with
                 | O => None | n => Some n end) by done.
  simpl sub_go. rewrite Hm. simpl take_while.
  destruct (is_space c) eqn:Hc; simpl length.
  - split; [|done]. simpl. apply norun_cons; [done|].
    intros d r Hd. by rewrite (IHhd d r Hd), andb_false_r.
  - assert (Hn : norun (c :: sub_go spaces [SP] (Some c) 0 s)).
    { apply norun_cons; [done|]. intros d r _. by rewrite Hc. }
    split; [done|]. split; [done|]. by intros d r [= <- _].
Qed.

End NormFacts.

(** C6 (as amended). The output of [limpar_texto] contains none of the
    control characters U+0000-U+0008, U+000B, U+000C, U+000E-U+001F and
    U+007F.  Only runs of the space character U+0020 are collapsed: when
    the input contains none of those control characters, the output has no
    two consecutive spaces. *)
Theorem limpar_texto_spaces_and_controls (texto : list N) :
  NormSpec.no_control (limpar_texto texto)
  ∧ (NormSpec.no_control texto →
     NormSpec.has_run2 NormSpec.is_space (limpar_texto texto) = false).
Proof.
  unfold limpar_texto. split.
  - apply NormFacts.Forall_strip, NormFacts.sub_control_clean.
  - intros Hin. unfold Re.sub.
    set (t1 := Re.sub_go Re.blank_lines [Str.NL; Str.NL] None 0 texto).
    set (t2 := Re.sub_go Re.spaces [Str.SP] None 0 t1).
    assert (H1 : NormSpec.no_control t1).
    { apply NormFacts.sub_go_Forall; [by repeat constructor|done]. }
    assert (H2 : NormSpec.no_control t2).
    { apply NormFacts.sub_go_Forall; [by repeat constructor|done]. }
    assert (R2 : NormSpec.norun t2).
    { apply (NormFacts.sub_spaces_norun t1 None). }
    rewrite NormFacts.sub_control_id.
    + apply NormFacts.norun_strip, NormFacts.norun_lines, R2.
    + by apply NormFacts.Forall_lines.
Qed.

Lemma limpar_texto_spaces_and_controls_witness :
  NormSpec.no_control (limpar_texto (Str.lit "a   b  c"))
  ∧ NormSpec.has_run2 NormSpec.is_space (limpar_texto (Str.lit "a   b  c"))
    = false.
Proof.
  split.
  - apply (proj1 (limpar_texto_spaces_and_controls (Str.lit "a   b  c"))).
  - apply (proj2 (limpar_texto_spaces_and_controls (Str.lit "a   b  c"))).
    vm_compute. repeat constructor.
Defined.

(** ** The relevance selector *)

Module SelectorFacts.

Import Selector SelectorSpec.

Lemma similaridade_ok e g :
  length e = length g →
  ∃ x, (calcular_similaridade_coseno e g).1 = Py.Ok x.
Proof.
  intros Hlen. unfold calcular_similaridade_coseno.
  destruct (_ || _)%bool; [by eexists|].
  unfold Np.dot. rewrite bool_decide_eq_true_2 by done. by eexists.
Qed.

(** The list [similaridades]: one item per embedding, in order, each
    holding the chunk at its own position. *)
Lemma similaridades_spec chunks g embs : ∀ i,
  Forall (λ e, length e = length g) embs →
  (i + length embs ≤ length chunks)%nat →
  ∃ sims,
    similaridades chunks g i embs = Py.Ok sims
    ∧ map indice_original sims = seq i (length embs)
    ∧ Forall (λ it, chunks !! indice_original it = Some (chunk it)) sims.
Proof.
  induction embs as [|e embs IH]; intros i Hdim Hlen; simpl.
  - by exists [].
  - apply Forall_cons in Hdim as [He Hdim]. simpl in Hlen.
    destruct (similaridade_ok e g He) as [x Hx]. rewrite Hx.
    destruct (lookup_lt_is_Some_2 chunks i ltac:(lia)) as [c Hc].
    destruct (IH (S i) Hdim ltac:(lia)) as (sims & Hs & Hidx & Hch).
    cbn. rewrite Hc. cbn. rewrite Hs. cbn.
    eexists. split; [reflexivity|]. simpl. rewrite Hidx.
    split; [done|]. by constructor.
Qed.

(** *** The store after the copies *)

Lemma Forall2_impl_r {A B} (P Q : A → B → Prop) (R : B → Prop) l k :
  Forall2 P l k → Forall R k → (∀ x y, P x y → R y → Q x y) →
  Forall2 Q l k.
Proof.
  intros HP HR Himp. induction HP as [|x y l k Hxy HP IH]; [done|].
  apply Forall_cons in HR as [Hy HR]. constructor; auto.
Qed.

Lemma montar_resultado_spec items : ∀ (h : Store.t) ls h',
  montar_resultado h items = (ls, h') →
  Forall (λ it, chunk it ∈ dom h) items →
  (∀ l, l ∈ dom h → h' !! l = h !! l)
  ∧ Forall2 (λ l' it,
      (l' ∉ dom h)
      ∧ h' !! l' = Some (<["similaridade" := VFloat (similaridade it)]>
                           (Store.get h (chunk it)))) ls items.
Proof.
  induction items as [|it items IH]; intros h ls h' Hres Hval; simpl in Hres.
  - injection Hres as <- <-. by split.
  - apply Forall_cons in Hval as [Hit Hval].
    unfold Store.copy, Store.setitem in Hres.
    set (l0 := fresh (dom h)) in *.
    assert (Hfresh : l0 ∉ dom h) by apply is_fresh.
    set (h1 := <[l0 := _]> (<[l0 := Store.get h (chunk it)]> h)) in *.
    destruct (montar_resultado h1 items) as [ls1 h2] eqn:Hrec.
    injection Hres as <- <-.
    assert (Hold : ∀ l, l ∈ dom h → h1 !! l = h !! l).
    { intros l Hl. unfold h1.
      assert (l0 ≠ l) by (intros Heq; apply Hfresh; by rewrite Heq).
      by rewrite !lookup_insert_ne. }
    assert (Hdom : ∀ l, l ∈ dom h → l ∈ dom h1).
    { intros l Hl. apply elem_of_dom. rewrite Hold by done.
      by apply elem_of_dom. }
    assert (Hget : ∀ l, l ∈ dom h → Store.get h1 l = Store.get h l).
    { intros l Hl. unfold Store.get. by rewrite Hold. }
    destruct (IH h1 ls1 h2 Hrec) as [Hframe Hcopies].
    { eapply Forall_impl; [exact Hval|]. intros x Hx. by apply Hdom. }
    assert (Hl0 : h1 !! l0
                  = Some (<["similaridade" := VFloat (similaridade it)]>
                            (Store.get h (chunk it)))).
    { unfold h1. rewrite lookup_insert_eq. do 2 f_equal.
      unfold Store.get. by rewrite lookup_insert_eq. }
    split.
    + intros l Hl. rewrite Hframe by auto. by apply Hold.
    + constructor.
      * split; [done|]. rewrite Hframe; [done|].
        apply elem_of_dom. by rewrite Hl0.
      * eapply Forall2_impl_r; [exact Hcopies|exact Hval|].
        intros l' it' [Hn Hc] Hit'. split.
        -- intros Hin. apply Hn. by apply Hdom.
        -- rewrite Hc. do 2 f_equal. by apply Hget.
Qed.

Lemma similaridades_inv chunks g embs : ∀ i sims,
  similaridades chunks g i embs = Py.Ok sims →
  map indice_original sims = seq i (length embs)
  ∧ Forall (λ it, chunks !! indice_original it = Some (chunk it)) sims.
Proof.
  induction embs as [|e embs IH]; intros i sims; simpl.
  - intros [= <-]. by split.
  - destruct (calcular_similaridade_coseno e g).1 as [x|]; cbn; [|done].
    destruct (chunks !! i) as [c|] eqn:Hc; cbn; [|done].
    destruct (similaridades chunks g (S i) embs) as [rest|] eqn:Hrest;
      cbn; [|done].
    intros [= <-]. destruct (IH _ _ Hrest) as [Hidx Hch]. simpl.
    rewrite Hidx. split; [done|]. by constructor.
Qed.

(** *** The selected items *)

Lemma insert_sorted_Permutation {A} (lt : A → A → bool) x l :
  Py.insert_sorted lt x l ≡ₚ x :: l.
Proof.
  induction l as [|y l IH]; simpl; [done|].
  destruct (lt y x); [|done]. rewrite IH. apply Permutation_swap.
Qed.

Lemma sorted_Permutation {A} (lt : A → A → bool) l : Py.sorted lt l ≡ₚ l.
Proof.
  induction l as [|x l IH]; simpl; [done|].
  by rewrite insert_sorted_Permutation, IH.
Qed.



Lemma slice_to_sublist {A} n (l : list A) : Py.slice_to n l `sublist_of` l.
Proof. unfold Py.slice_to. destruct (0 <=? n); apply sublist_take. Qed.

Lemma selecionados_submseteq n sims : selecionados n sims ⊆+ sims.
Proof.
  unfold selecionados, ordenar_por_indice, ordenar_por_similaridade.
  rewrite sorted_Permutation.
  etrans; [apply sublist_submseteq, slice_to_sublist|].
  by rewrite sorted_Permutation.
Qed.

Lemma selecionados_length n sims :
  0 ≤ n → length (selecionados n sims) = (Z.to_nat n `min` length sims)%nat.
Proof.
  intros Hn. unfold selecionados, ordenar_por_indice.
  rewrite sorted_Permutation, TruncFacts.slice_to_nonneg by done.
  rewrite length_take. unfold ordenar_por_similaridade.
  by rewrite sorted_Permutation.
Qed.




(** *** The number of chunks to select *)



(** *** The whole function on well-formed input *)

Lemma selecionar_spec (h : Store.t) chunks embs g f sims :
  chunks ≠ [] → embs ≠ [] →
  Forall (λ l, l ∈ dom h) chunks →
  similaridades chunks g 0 embs = Py.Ok sims →
  ∃ res h',
    selecionar_chunks_relevantes h chunks embs g f = (Py.Ok res, h')
    ∧ (∀ l, l ∈ dom h → h' !! l = h !! l)
    ∧ Forall2 (copia_com_similaridade h h' chunks) res
        (selecionados (num_selecionar (length chunks) f) sims).
Proof.
  intros Hc He Hval Hsims. unfold selecionar_chunks_relevantes.
  rewrite !bool_decide_eq_false_2 by done. simpl. rewrite Hsims.
  fold (selecionados (num_selecionar (length chunks) f) sims).
  set (sel := selecionados _ sims).
  destruct (similaridades_inv _ _ _ _ _ Hsims) as [_ Hch].
  assert (Hsel : Forall (λ it, chunks !! indice_original it
                               = Some (chunk it)) sel).
  { apply Forall_forall. intros it Hit.
    apply (proj1 (Forall_forall _ _) Hch).
    eapply elem_of_submseteq; [exact Hit|apply selecionados_submseteq]. }
  destruct (montar_resultado h sel) as [res h'] eqn:Hres.
  destruct (montar_resultado_spec sel h res h' Hres) as [Hframe Hcopies].
  { eapply Forall_impl; [exact Hsel|]. intros it Hit.
    apply (proj1 (Forall_forall _ _) Hval).
    exact (list_elem_of_lookup_2 _ _ _ Hit). }
  exists res, h'. split; [done|]. split; [done|].
  eapply Forall2_impl_r; [exact Hcopies|exact Hsel|].
  intros l' it [Hn Hl] Hit. by repeat split.
Qed.

Lemma selecionar_raise (h : Store.t) chunks embs g f e :
  chunks ≠ [] → embs ≠ [] →
  similaridades chunks g 0 embs = Py.Raise e →
  selecionar_chunks_relevantes h chunks embs g f = (Py.Raise e, h).
Proof.
  intros Hc He Hsims. unfold selecionar_chunks_relevantes.
  rewrite !bool_decide_eq_false_2 by done. simpl. by rewrite Hsims.
Qed.


End SelectorFacts.

(** C9. [selecionar_chunks_relevantes] does not mutate its input: for a
    chunk list and an embedding list of the same length, every object the
    store held before the call, the input chunks among them, has the same
    items after it, and every returned chunk is a new object, a copy of
    the input chunk at its original position with the key ['similaridade']
    added. *)
Theorem selecionar_chunks_relevantes_frame (h : Store.t)
    (chunks : list positive) (embeddings_chunks : list (list float))
    (embedding_global : list float) (percentual_selecao : Q) :
  Forall (λ l, l ∈ dom h) chunks →
  length embeddings_chunks = length chunks →
  let r := selecionar_chunks_relevantes h chunks embeddings_chunks
             embedding_global percentual_selecao in
  (∀ l, l ∈ dom h → r.2 !! l = h !! l)
  ∧ ∀ res, r.1 = Py.Ok res →
      ∃ sel, Forall2 (SelectorSpec.copia_com_similaridade h r.2 chunks)
               res sel.
Proof.
  intros Hval Hlen r. subst r.
  destruct chunks as [|c chunks].
  { destruct embeddings_chunks; [|done]. simpl. split; [done|].
    intros res [= <-]. by exists []. }
  destruct embeddings_chunks as [|e embs]; [done|].
  destruct (Selector.similaridades (c :: chunks) embedding_global 0
              (e :: embs)) as [sims|exn] eqn:Hsims.
  - destruct (SelectorFacts.selecionar_spec h (c :: chunks) (e :: embs)
                embedding_global percentual_selecao sims)
      as (res & h' & -> & Hframe & Hcopies); [done..|].
    simpl. split; [done|]. intros res' [= <-]. eauto.
  - rewrite (SelectorFacts.selecionar_raise h (c :: chunks) (e :: embs)
               embedding_global percentual_selecao exn) by done.
    simpl. split; done.
Qed.

Lemma selecionar_chunks_relevantes_frame_witness :
  let h := Exemplo.cinco.2 in
  let r := selecionar_chunks_relevantes h Exemplo.cinco.1
             Exemplo.embeddings_cinco Exemplo.embedding_global (4 # 10) in
  (∀ l, l ∈ dom h → r.2 !! l = h !! l)
  ∧ ∀ res, r.1 = Py.Ok res →
      ∃ sel, Forall2 (SelectorSpec.copia_com_similaridade h r.2
                        Exemplo.cinco.1) res sel.
Proof.
  apply (selecionar_chunks_relevantes_frame Exemplo.cinco.2 Exemplo.cinco.1
           Exemplo.embeddings_cinco Exemplo.embedding_global (4 # 10)).
  - assert (Exemplo.cinco.1 = [1; 2; 3; 4; 5]%positive) as ->
      by (vm_compute; reflexivity).
    repeat (apply Forall_cons; split;
            [apply elem_of_dom; vm_compute; by eexists|]).
    apply Forall_nil. done.
  - reflexivity.
Defined.



(** The scenario of the specification: similarities ranking positions 4
    and 0 first, fraction 0.4 of five chunks; positions 0 and 4 are
    returned, in that order. *)
Example selecionar_scenario :
  let r := selecionar_chunks_relevantes Exemplo.cinco.2 Exemplo.cinco.1
             Exemplo.embeddings_cinco Exemplo.embedding_global (4 # 10) in
  ∃ res, r.1 = Py.Ok res
    ∧ map (λ l, Store.get r.2 l !! "indice") res
      = [Some (VInt 0); Some (VInt 4)].
Proof. eexists. split; vm_compute; reflexivity. Qed.

(** Equal similarities: the sort is stable, so the earliest chunks are the
    ones kept. *)
Example selecionar_ties :
  let r := selecionar_chunks_relevantes Exemplo.cinco.2 Exemplo.cinco.1
             [[1; 1]; [1; 1]; [1; 1]; [1; 1]; [1; 1]]%float
             Exemplo.embedding_global (4 # 10) in
  ∃ res, r.1 = Py.Ok res
    ∧ map (λ l, Store.get r.2 l !! "indice") res
      = [Some (VInt 0); Some (VInt 1)].
Proof. eexists. split; vm_compute; reflexivity. Qed.

(** ** The orchestrator and a failing embedding service *)

(** C1 (as stated) fails: with an embedding endpoint that raises on every
    request and a chat endpoint that answers, the run goes through all its
    stages and reports success. *)
Lemma embedding_failure_is_not_fatal :
  ¬ AppSpec.embedding_failure_is_fatal Exemplo.amb_falha Exemplo.documento
      "Resumo" "Medio" Exemplo.mundo0.
Proof.
  intros H. destruct H as (Hs & _).
  - intros input. by eexists.
  - vm_compute in Hs. discriminate Hs.
Qed.

Module AppFacts.

Import Client App AppSpec.

Section failing_embeddings.

Context (amb : ambiente).
Hypothesis disponivel : OPENAI_DISPONIVEL amb = true.
Hypothesis cliente_ok : inicializar_cliente amb = Py.Ok ().
Hypothesis embeddings_fail :
  ∀ input, ∃ e, embeddings_create amb input = Py.Raise e.

Lemma gerar_embedding_zeros texto w :
  (gerar_embedding amb texto w).1 = Np.zeros 1536.
Proof using disponivel cliente_ok embeddings_fail.
  unfold gerar_embedding. rewrite disponivel, cliente_ok. simpl negb.
  cbv iota. destruct (Str.truthy (Str.strip texto)); [|done].
  simpl negb. cbv iota. unfold mbind, M_bind, api_embeddings.
  destruct (embeddings_fail
              [truncar_texto_para_embedding (Str.strip texto) 8000])
    as [e ->].
  done.
Qed.

Lemma gerar_embeddings_batch_zeros textos w :
  (gerar_embeddings_batch amb textos w).1
  = map (λ _, Np.zeros 1536) textos.
Proof using disponivel cliente_ok embeddings_fail.
  unfold gerar_embeddings_batch. case_bool_decide as Ht.
  { by rewrite Ht. }
  rewrite disponivel, cliente_ok. simpl negb. cbv iota.
  case_bool_decide; [done|].
  unfold mbind, M_bind, api_embeddings.
  destruct (embeddings_fail (map limpar_para_batch textos)) as [e ->].
  done.
Qed.

Lemma textos_de_ok ds :
  Forall has_texto ds → ∃ ts, textos_de ds = Py.Ok ts
                              ∧ length ts = length ds.
Proof.
  induction 1 as [|d ds [t Hd] Hds (ts & IH & Hlen)]; simpl.
  - by exists [].
  - unfold texto_de. rewrite Hd. cbn. rewrite IH. cbn.
    eexists. split; [done|]. simpl. by rewrite Hlen.
Qed.

Lemma gerar_embeddings_para_chunks_zeros ds w :
  Forall has_texto ds →
  (gerar_embeddings_para_chunks amb ds w).1
  = Py.Ok (map (λ _, Np.zeros 1536) ds).
Proof using disponivel cliente_ok embeddings_fail.
  intros Hds. unfold gerar_embeddings_para_chunks.
  case_bool_decide as Hd; [by rewrite Hd|].
  destruct (textos_de_ok ds Hds) as (ts & -> & Hlen).
  unfold mbind, M_bind.
  pose proof (gerar_embeddings_batch_zeros ts w) as Hz.
  destruct (gerar_embeddings_batch amb ts w) as [es w']. simpl in *.
  rewrite Hz. f_equal. clear -Hlen. revert ds Hlen.
  induction ts as [|t ts IH]; intros [|d ds] Hlen; simpl in *;
    try done.
  f_equal. apply IH. lia.
Qed.

End failing_embeddings.

(** *** Prompt construction *)

Lemma texto_chunks_parts_ok ds : ∀ total,
  Forall has_texto ds → ∃ parts, texto_chunks_parts ds total = Py.Ok parts.
Proof.
  induction ds as [|d ds IH]; intros total Hds; simpl.
  - by eexists.
  - apply Forall_cons in Hds as [[t Hd] Hds].
    unfold texto_de. rewrite Hd. cbn.
    destruct (25000 <? total + Str.len t).
    + destruct (500 <? 25000 - total); by eexists.
    + destruct (IH (total + Str.len t + 10) Hds) as [parts ->]. cbn.
      by eexists.
Qed.

Lemma prompt_ok amb ds tipo_saida tamanho_resumo :
  Forall has_texto ds →
  ∃ prompt,
    (if String.eqb tipo_saida "Resumo"
     then construir_prompt_resumo amb ds tamanho_resumo
     else construir_prompt_simplificacao amb ds) = Py.Ok prompt.
Proof.
  intros Hds. unfold construir_prompt_resumo, construir_prompt_simplificacao.
  destruct (texto_chunks_parts_ok ds 0 Hds) as [parts ->]. cbn.
  destruct (String.eqb _ _); by eexists.
Qed.

(** With a client and well-formed chunks, the generation request is
    sent, and its outcome is the outcome of the call. *)
Lemma gerar_texto_o4_mini_spec amb ds tipo_saida tamanho_resumo w :
  OPENAI_DISPONIVEL amb = true →
  inicializar_cliente amb = Py.Ok () →
  Forall has_texto ds →
  ∃ prompt,
    let out := gerar_texto_o4_mini amb ds tipo_saida tamanho_resumo w in
    chamadas out.2 = chamadas w ++ [ChatCreate prompt]
    ∧ llm_sucesso out.1
      = match chat_create amb prompt with
        | Py.Ok _ => true
        | Py.Raise _ => false
        end
    ∧ (llm_sucesso out.1 = false → is_Some (llm_erro out.1)).
Proof.
  intros Hd Hc Hds. unfold gerar_texto_o4_mini. rewrite Hd, Hc.
  simpl negb. cbv iota.
  destruct (prompt_ok amb ds tipo_saida tamanho_resumo Hds) as [prompt ->].
  exists prompt. unfold mbind, M_bind, api_chat.
  destruct (chat_create amb prompt) as [[content tokens]|e]; simpl;
    repeat split; done.
Qed.

(** *** The chunks of the pipeline *)

Lemma novo_chunk_has_texto st : has_texto (Chunker.novo_chunk st).
Proof. eexists. apply ChunkerFacts.novo_chunk_texto. Qed.

Lemma salvar_has_texto st :
  Forall has_texto (Chunker.chunks st) →
  Forall has_texto (Chunker.chunks (Chunker.salvar st)).
Proof.
  intros H. destruct (ChunkerFacts.salvar_cases st) as [(_ & -> & _)|[_ ->]];
    [|done].
  apply Forall_app. split; [done|].
  repeat constructor. apply novo_chunk_has_texto.
Qed.

Lemma passo_has_texto tamanho overlap st sentenca :
  Forall has_texto (Chunker.chunks st) →
  Forall has_texto (Chunker.chunks (Chunker.passo tamanho overlap st sentenca)).
Proof.
  intros H.
  destruct (ChunkerFacts.passo_chunks tamanho overlap st sentenca)
    as [[-> _]|[-> _]]; [done|by apply salvar_has_texto].
Qed.

Lemma criar_chunks_has_texto nlp texto tamanho overlap usar_spacy :
  Forall has_texto (criar_chunks nlp texto tamanho overlap usar_spacy).
Proof.
  unfold criar_chunks, Chunker.agrupar. apply salvar_has_texto.
  generalize (Chunker.segmentar nlp usar_spacy texto).
  assert (H0 : Forall has_texto (Chunker.chunks Chunker.inicial))
    by constructor.
  revert H0. generalize Chunker.inicial.
  intros st H0 l. revert st H0.
  induction l as [|s l IH]; intros st H0; simpl; [done|].
  by apply IH, passo_has_texto.
Qed.

Lemma alloc_all_spec ds : ∀ (h0 : Store.t) refs h,
  Store.alloc_all h0 ds = (refs, h) →
  (∀ l, l ∈ dom h0 → h !! l = h0 !! l)
  ∧ Forall2 (λ l d, h !! l = Some d) refs ds.
Proof.
  induction ds as [|d ds IH]; intros h0 refs h; simpl.
  - intros [= <- <-]. by split.
  - set (l0 := fresh (dom h0)).
    assert (Hfresh : l0 ∉ dom h0) by apply is_fresh.
    destruct (Store.alloc_all (<[l0:=d]> h0) ds) as [ls h1] eqn:Hrec.
    intros [= <- <-].
    destruct (IH _ _ _ Hrec) as [Hframe Hall].
    split.
    + intros l Hl. rewrite Hframe.
      * apply lookup_insert_ne. intros Heq. apply Hfresh. by rewrite Heq.
      * rewrite dom_insert_L. apply elem_of_union. by right.
    + constructor; [|done].
      rewrite Hframe; [apply lookup_insert_eq|].
      rewrite dom_insert_L. apply elem_of_union. left.
      by apply elem_of_singleton.
Qed.

(** Selection over well-formed chunks and embeddings of one dimension
    returns, and what it returns are well-formed chunks again. *)
Lemma selecionar_has_texto (h : Store.t) refs embs g f :
  Forall (λ l, l ∈ dom h ∧ has_texto (Store.get h l)) refs →
  length embs = length refs →
  Forall (λ e, length e = length g) embs →
  ∃ res h',
    selecionar_chunks_relevantes h refs embs g f = (Py.Ok res, h')
    ∧ Forall has_texto (map (Store.get h') res).
Proof.
  intros Hrefs Hlen Hdim.
  destruct refs as [|c refs].
  { destruct embs; [|done]. exists [], h. by split. }
  destruct embs as [|e embs]; [done|].
  destruct (SelectorFacts.similaridades_spec (c :: refs) g (e :: embs) 0
              Hdim ltac:(simpl in *; lia)) as (sims & Hsims & _ & _).
  destruct (SelectorFacts.selecionar_spec h (c :: refs) (e :: embs) g f sims)
    as (res & h' & Hsel & _ & Hcopies); [done|done| |done|].
  { eapply Forall_impl; [exact Hrefs|]. by intros l [Hl _]. }
  exists res, h'. split; [done|].
  apply Forall_fmap, Forall_forall. intros l' Hl'.
  apply list_elem_of_lookup in Hl' as [j Hj].
  destruct (Forall2_lookup_l _ _ _ _ _ Hcopies Hj)
    as (it & _ & _ & Hch & Hcopy).
  unfold compose, has_texto, Store.get. rewrite Hcopy. simpl.
  rewrite lookup_insert_ne by done.
  apply list_elem_of_lookup_2 in Hch.
  by destruct (proj1 (Forall_forall _ _) Hrefs _ Hch) as [_ Ht].
Qed.

End AppFacts.

(** C1 (as amended). When the embedding requests raise, the failure is
    absorbed by the client: [gerar_embedding] returns the zero vector of
    dimension 1536 and [gerar_embeddings_batch] one such vector per text.
    [processar_texto] then runs its remaining stages: with the client
    library present and an API key configured, the generation request is
    the last request of the run, the run succeeds exactly when that
    request succeeds, and a failed run carries a message. *)
Theorem embedding_failure_is_absorbed (amb : Client.ambiente)
    (texto_entrada : list N) (tipo_saida tamanho_resumo : string)
    (mostrar_detalhes : bool) (w : Client.mundo) :
  Client.OPENAI_DISPONIVEL amb = true →
  Client.inicializar_cliente amb = Py.Ok () →
  (∀ input, ∃ e, Client.embeddings_create amb input = Py.Raise e) →
  (∀ texto w', (Client.gerar_embedding amb texto w').1 = Np.zeros 1536)
  ∧ (∀ textos w', (Client.gerar_embeddings_batch amb textos w').1
                  = map (λ _, Np.zeros 1536) textos)
  ∧ let out := App.processar_texto amb texto_entrada tipo_saida
                 tamanho_resumo mostrar_detalhes w in
    ∃ prompt,
      last (Client.chamadas out.2) = Some (Client.ChatCreate prompt)
      ∧ App.sucesso out.1.1
        = match Client.chat_create amb prompt with
          | Py.Ok _ => true
          | Py.Raise _ => false
          end
      ∧ (App.sucesso out.1.1 = false → is_Some (App.erro out.1.1)).
Proof.
  intros Hd Hc Hfail.
  split; [intros; by apply AppFacts.gerar_embedding_zeros|].
  split; [intros; by apply AppFacts.gerar_embeddings_batch_zeros|].
  unfold App.processar_texto, processar_texto_completo.
  set (texto_limpo := limpar_texto texto_entrada).
  pose proof (AppFacts.criar_chunks_has_texto (Client.spacy amb) texto_limpo
                500 200 true) as Htexto.
  destruct (Store.alloc_all ∅ _) as [refs h] eqn:Halloc.
  destruct (AppFacts.alloc_all_spec _ _ _ _ Halloc) as [_ Hrefs].
  assert (Hwf : Forall (λ l, l ∈ dom h
                             ∧ AppSpec.has_texto (Store.get h l)) refs).
  { apply Forall_forall. intros l Hl.
    apply list_elem_of_lookup in Hl as [j Hj].
    destruct (Forall2_lookup_l _ _ _ _ _ Hrefs Hj) as (d & Hdj & Hld).
    split; [apply elem_of_dom; by eexists|].
    unfold Store.get. rewrite Hld. simpl.
    apply (proj1 (Forall_forall _ _) Htexto).
    by eapply list_elem_of_lookup_2. }
  unfold mbind, Client.M_bind.
  pose proof (AppFacts.gerar_embedding_zeros amb Hd Hc Hfail texto_limpo w)
    as Hg.
  destruct (Client.gerar_embedding amb texto_limpo w) as [eg w1].
  simpl in Hg. subst eg.
  pose proof (AppFacts.gerar_embeddings_para_chunks_zeros amb Hd Hc Hfail
                (map (Store.get h) refs) w1) as Hb.
  destruct (Client.gerar_embeddings_para_chunks amb _ w1) as [embs w2].
  simpl in Hb. rewrite Hb.
  2:{ apply Forall_fmap. eapply Forall_impl; [exact Hwf|]. by intros l [_ ?]. }
  destruct (AppFacts.selecionar_has_texto h refs
              (map (λ _, Np.zeros 1536) (map (Store.get h) refs))
              (Np.zeros 1536) (7 # 10) Hwf)
    as (res & h' & -> & Hres).
  { by rewrite !length_map. }
  { apply Forall_fmap, Forall_forall. by intros. }
  destruct (AppFacts.gerar_texto_o4_mini_spec amb (map (Store.get h') res)
              tipo_saida tamanho_resumo w2 Hd Hc Hres)
    as (prompt & Hcalls & Hsuc & Herr).
  destruct (Client.gerar_texto_o4_mini amb _ tipo_saida tamanho_resumo w2)
    as [resposta w3].
  simpl in Hcalls, Hsuc, Herr. exists prompt. simpl.
  split; [by rewrite Hcalls, last_snoc|].
  unfold App.com_resposta. rewrite <- Hsuc.
  destruct (Client.llm_sucesso resposta); simpl; [done|]. split; [done|].
  intros _. by apply Herr.
Qed.

Lemma embedding_failure_is_absorbed_witness :
  (∀ texto w', (Client.gerar_embedding Exemplo.amb_falha texto w').1
               = Np.zeros 1536)
  ∧ (∀ textos w', (Client.gerar_embeddings_batch Exemplo.amb_falha textos w').1
                  = map (λ _, Np.zeros 1536) textos)
  ∧ let out := App.processar_texto Exemplo.amb_falha Exemplo.documento
                 "Resumo" "Medio" false Exemplo.mundo0 in
    ∃ prompt,
      last (Client.chamadas out.2) = Some (Client.ChatCreate prompt)
      ∧ App.sucesso out.1.1
        = match Client.chat_create Exemplo.amb_falha prompt with
          | Py.Ok _ => true
          | Py.Raise _ => false
          end
      ∧ (App.sucesso out.1.1 = false → is_Some (App.erro out.1.1)).
Proof.
  apply (embedding_failure_is_absorbed Exemplo.amb_falha Exemplo.documento
           "Resumo" "Medio" false Exemplo.mundo0).
  - reflexivity.
  - reflexivity.
  - intros input. eexists. reflexivity.
Defined.

(** * Further properties of the code *)

(** ** More on stripping *)

Module StripFacts.

Import Str StrSpec.

Lemma lstrip_trimmed s : trimmed s → lstrip s = s.
Proof. intros [(a & r & -> & Ha) _]. simpl. by rewrite Ha. Qed.

Lemma rstrip_snoc_space s c : isspace c = true → rstrip (s ++ [c]) = rstrip s.
Proof.
  intros Hc. unfold rstrip. rewrite reverse_app. simpl. by rewrite Hc.
Qed.

Lemma rstrip_trimmed s : trimmed s → rstrip s = s.
Proof.
  intros [_ (r & b & -> & Hb)]. unfold rstrip.
  rewrite reverse_app. simpl. rewrite Hb.
  by rewrite reverse_cons, reverse_involutive.
Qed.

Lemma strip_trimmed_id s : trimmed s → strip s = s.
Proof.
  intros Hs. unfold strip. rewrite lstrip_trimmed by done.
  by apply rstrip_trimmed.
Qed.

Lemma strip_trimmed_space s c :
  trimmed s → isspace c = true → strip (s ++ [c]) = s.
Proof.
  intros Hs Hc. unfold strip.
  destruct Hs as [(a & r & Hs & Ha) Hlast].
  assert (Hl : lstrip (s ++ [c]) = s ++ [c]).
  { rewrite Hs. simpl. by rewrite Ha. }
  rewrite Hl, rstrip_snoc_space by done.
  apply rstrip_trimmed. split; [by exists a, r|done].
Qed.

Lemma lstrip_margin x :
  ∃ ws, x = ws ++ lstrip x ∧ Forall (λ c, isspace c = true) ws.
Proof.
  induction x as [|c x (ws & IH & Hws)]; simpl; [by exists []|].
  destruct (isspace c) eqn:Hc.
  - exists (c :: ws). simpl. split; [by f_equal|by constructor].
  - by exists [].
Qed.

(** [s] is the stripped text with blank margins around it. *)
Lemma strip_margins s :
  ∃ ws1 ws2, s = ws1 ++ strip s ++ ws2
    ∧ Forall (λ c, isspace c = true) ws1
    ∧ Forall (λ c, isspace c = true) ws2.
Proof.
  destruct (lstrip_margin s) as (ws1 & H1 & Hws1).
  destruct (lstrip_margin (reverse (lstrip s))) as (ws2 & H2 & Hws2).
  exists ws1, (reverse ws2). unfold strip, rstrip.
  split; [|split; [done|by apply Forall_reverse]].
  rewrite <- reverse_app, <- H2, reverse_involutive. done.
Qed.

Lemma strip_length s : (length (strip s) ≤ length s)%nat.
Proof.
  destruct (strip_margins s) as (ws1 & ws2 & Hs & _ & _).
  rewrite Hs at 2. rewrite !length_app. lia.
Qed.

(** Stripping a text that ends with a blank removes at least that
    blank. *)
Lemma strip_snoc_space_length s c :
  isspace c = true → (length (strip (s ++ [c])) ≤ length s)%nat.
Proof.
  intros Hc.
  destruct (truthy (strip (s ++ [c]))) eqn:Hne.
  - pose proof (StrFacts.strip_trimmed _ Hne) as [_ (r & b & Hr & Hb)].
    destruct (strip_margins (s ++ [c])) as (ws1 & ws2 & Hs & _ & _).
    destruct ws2 as [|w ws2] using rev_ind.
    + rewrite app_nil_r, Hr, app_assoc in Hs.
      apply app_inj_tail in Hs as [_ ->]. congruence.
    + assert (Hlen : length (s ++ [c])
                     = length (ws1 ++ strip (s ++ [c]) ++ ws2 ++ [w]))
        by (by rewrite <- Hs).
      rewrite !length_app in Hlen. simpl in Hlen. lia.
  - destruct (strip (s ++ [c])); [simpl; lia|done].
Qed.

Lemma strip_blank s : Forall (λ c, isspace c = true) s → strip s = [].
Proof.
  intros Hs. unfold strip.
  assert (Hl : ∀ x, Forall (λ c, isspace c = true) x → lstrip x = []).
  { induction 1 as [|c x Hc Hx IH]; simpl; [done|]. by rewrite Hc. }
  by rewrite (Hl s Hs).
Qed.

Lemma strip_nil_blank s : strip s = [] → Forall (λ c, isspace c = true) s.
Proof.
  intros Hs. destruct (strip_margins s) as (ws1 & ws2 & Heq & H1 & H2).
  rewrite Heq, Hs. simpl. apply Forall_app. by split.
Qed.

End StripFacts.

(** ** The chunk builder: what a chunk holds *)

Module ChunkFacts.

Import Chunker ChunkSpec StrSpec.

Lemma novo_chunk_tamanho st :
  novo_chunk st !! "tamanho"
  = Some (VInt (Str.len (Str.strip (chunk_atual st)))).
Proof.
  unfold novo_chunk. rewrite !lookup_insert_ne by done.
  by rewrite lookup_insert_eq.
Qed.

Lemma novo_chunk_num_palavras st :
  novo_chunk st !! "num_palavras"
  = Some (VInt (contar_palavras (Str.strip (chunk_atual st)))).
Proof.
  unfold novo_chunk. rewrite !lookup_insert_ne by done.
  by rewrite lookup_insert_eq.
Qed.

Lemma novo_chunk_num_sentencas st :
  novo_chunk st !! "num_sentencas"
  = Some (VInt (Z.of_nat (length (sentencas_no_chunk st)))).
Proof.
  unfold novo_chunk. rewrite !lookup_insert_ne by done.
  by rewrite lookup_insert_eq.
Qed.

Lemma novo_chunk_bem_formado st :
  Str.truthy (Str.strip (chunk_atual st)) = true →
  sentencas_no_chunk st ≠ [] →
  bem_formado (novo_chunk st).
Proof.
  intros Ht Hs.
  exists (Str.strip (chunk_atual st)),
         (Z.of_nat (length (sentencas_no_chunk st))).
  split; [apply ChunkerFacts.novo_chunk_texto|].
  split; [by apply StrFacts.strip_trimmed|].
  split; [apply novo_chunk_tamanho|].
  split; [apply novo_chunk_num_palavras|].
  split; [apply novo_chunk_num_sentencas|].
  destruct (sentencas_no_chunk st); [done|simpl; lia].
Qed.

Lemma inv_salvar st : inv st → Forall bem_formado (chunks (salvar st)).
Proof.
  intros [Hc Hs].
  destruct (ChunkerFacts.salvar_cases st) as [(Ht & -> & _)|[_ ->]];
    [|done].
  apply Forall_app. split; [done|]. repeat constructor.
  apply novo_chunk_bem_formado; [done|]. apply Hs.
  intros Hnil. by rewrite Hnil in Ht.
Qed.

Lemma inv_passo tamanho overlap st sentenca :
  inv st → inv (passo tamanho overlap st sentenca).
Proof.
  intros H. split.
  - destruct (ChunkerFacts.passo_chunks tamanho overlap st sentenca)
      as [[-> _]|[-> _]]; [by destruct H|by apply inv_salvar].
  - intros _. apply OverlapFacts.passo_sentencas_nonempty.
Qed.

Lemma inv_fold tamanho overlap l st :
  inv st → inv (fold_left (passo tamanho overlap) l st).
Proof.
  revert st. induction l as [|s l IH]; intros st H; [done|].
  simpl. by apply IH, inv_passo.
Qed.

Lemma inv_inicial : inv inicial.
Proof. split; [constructor|done]. Qed.

End ChunkFacts.

(** X1. Every chunk [criar_chunks] returns is well formed: its text is
    non-empty and has no blank at either end, ['tamanho'] is the length of
    that text, ['num_palavras'] its word count, and ['num_sentencas'] is
    at least 1. *)
Theorem criar_chunks_bem_formados (nlp : spacy_model) (texto : list N)
    (tamanho_chunk overlap : Z) (usar_spacy : bool) :
  Forall ChunkSpec.bem_formado
    (criar_chunks nlp texto tamanho_chunk overlap usar_spacy).
Proof.
  unfold criar_chunks, Chunker.agrupar.
  apply ChunkFacts.inv_salvar, ChunkFacts.inv_fold, ChunkFacts.inv_inicial.
Qed.

(** X2. [criar_chunks] returns no chunk exactly when the segmentation
    step finds no segment. *)
Theorem criar_chunks_empty_iff (nlp : spacy_model) (texto : list N)
    (tamanho_chunk overlap : Z) (usar_spacy : bool) :
  criar_chunks nlp texto tamanho_chunk overlap usar_spacy = []
  ↔ Chunker.segmentar nlp usar_spacy texto = [].
Proof.
  unfold criar_chunks. split.
  - intros Hnil.
    destruct (Chunker.segmentar nlp usar_spacy texto) as [|s l] eqn:Hseg;
      [done|].
    pose proof (CoverageFacts.segmentar_trimmed nlp usar_spacy texto) as Hall.
    rewrite Hseg in Hall.
    assert (Hs : ChunkerSpec.emitido s
                   (Chunker.agrupar tamanho_chunk overlap (s :: l))).
    { unfold Chunker.agrupar. apply CoverageFacts.coberto_salvar.
      - by apply Forall_cons in Hall as [? _].
      - apply CoverageFacts.fold_coberto; [done|]. apply elem_of_cons.
        by left. }
    rewrite Hnil in Hs. destruct Hs as (d & t & Hd & _).
    by apply elem_of_nil in Hd.
  - intros ->. reflexivity.
Qed.

(** ** The chunk builder: one buffer, and no overlap *)

Module BufferFacts.

Import Chunker ChunkSpec ChunkerSpec StrSpec.

Lemma buffer_snoc p s : buffer (p ++ [s]) = buffer p ++ s ++ [Str.SP].
Proof.
  unfold buffer. rewrite map_app, concat_app. simpl.
  by rewrite app_nil_r.
Qed.

Lemma buffer_len p :
  Str.len (buffer p) = total_chars p + Z.of_nat (length p).
Proof.
  induction p as [|s p IH]; [done|].
  unfold buffer in *. simpl. unfold Str.len in *.
  rewrite !length_app. simpl. lia.
Qed.

Lemma fold_fits tamanho overlap rest : ∀ p,
  total_chars (p ++ rest) + Z.of_nat (length (p ++ rest)) - 1 ≤ tamanho →
  fold_left (passo tamanho overlap) rest (um_buffer p)
  = um_buffer (p ++ rest).
Proof.
  induction rest as [|s rest IH]; intros p Hfit; simpl.
  - by rewrite app_nil_r.
  - assert (Hstep : passo tamanho overlap (um_buffer p) s
                    = um_buffer (p ++ [s])).
    { unfold passo. simpl.
      rewrite OverlapFacts.total_chars_app, length_app in Hfit.
      simpl in Hfit.
      pose proof (OverlapFacts.total_chars_nonneg rest).
      assert (Hle : (Str.len (buffer p) + Str.len s <=? tamanho) = true).
      { apply Z.leb_le. rewrite buffer_len. lia. }
      rewrite Hle. unfold um_buffer. by rewrite buffer_snoc. }
    rewrite Hstep, IH; rewrite <- app_assoc; done.
Qed.

Lemma join_buffer sents :
  sents ≠ [] → buffer sents = Str.join [Str.SP] sents ++ [Str.SP].
Proof.
  induction sents as [|s sents IH]; [done|]. intros _.
  destruct sents as [|q r]; [unfold buffer; simpl; by rewrite app_nil_r|].
  change (buffer (s :: q :: r)) with ((s ++ [Str.SP]) ++ buffer (q :: r)).
  rewrite IH by done. simpl. by rewrite <- !app_assoc.
Qed.

Lemma join_trimmed sents :
  sents ≠ [] → Forall trimmed sents → trimmed (Str.join [Str.SP] sents).
Proof.
  induction sents as [|s sents IH]; [done|]. intros _ Hall.
  apply Forall_cons in Hall as [Hs Hall].
  destruct sents as [|q r]; [done|].
  specialize (IH ltac:(done) Hall).
  change (Str.join [Str.SP] (s :: q :: r))
    with (s ++ [Str.SP] ++ Str.join [Str.SP] (q :: r)).
  destruct Hs as [(a & r0 & -> & Ha) _].
  destruct IH as [_ (r1 & b & -> & Hb)].
  split.
  - by exists a, (r0 ++ [Str.SP] ++ r1 ++ [b]).
  - exists ((a :: r0) ++ [Str.SP] ++ r1), b.
    split; [by rewrite <- !app_assoc|done].
Qed.

(** *** Without overlap *)

Lemma dentro_do_limite_novo tamanho st body :
  chunk_atual st = body ++ [Str.SP] →
  Str.len body ≤ tamanho ∨ length (sentencas_no_chunk st) = 1%nat →
  dentro_do_limite tamanho (novo_chunk st).
Proof.
  intros Hb Hlim.
  exists (Str.strip (chunk_atual st)),
         (Z.of_nat (length (sentencas_no_chunk st))).
  split; [apply ChunkerFacts.novo_chunk_texto|].
  split; [apply ChunkFacts.novo_chunk_num_sentencas|].
  destruct Hlim as [Hlen|Hone]; [left|right; lia].
  rewrite Hb. unfold Str.len in *.
  pose proof (StripFacts.strip_snoc_space_length body Str.SP eq_refl).
  lia.
Qed.

Lemma soma_sentencas_snoc l d :
  soma_sentencas (l ++ [d]) = soma_sentencas l + num_sentencas d.
Proof.
  induction l as [|x l IH]; simpl; [lia|].
  unfold soma_sentencas in *. simpl. rewrite IH. lia.
Qed.

Lemma num_sentencas_novo st :
  num_sentencas (novo_chunk st)
  = Z.of_nat (length (sentencas_no_chunk st)).
Proof.
  unfold num_sentencas. by rewrite ChunkFacts.novo_chunk_num_sentencas.
Qed.

(** Saving under the invariant: the buffer, if any, becomes a chunk
    within the limit and its segments are counted. *)
Lemma salvar_sem_overlap tamanho vistos st :
  inv_sem_overlap tamanho vistos st →
  Forall (dentro_do_limite tamanho) (chunks (salvar st))
  ∧ soma_sentencas (chunks (salvar st)) = Z.of_nat vistos.
Proof.
  intros (Hc & Hnil & Hbuf & Hsum).
  destruct (sentencas_no_chunk st) as [|s0 ss] eqn:Hs.
  - unfold salvar. rewrite (Hnil eq_refl). simpl. split; [done|].
    simpl in Hsum. lia.
  - destruct (Hbuf ltac:(done)) as (body & Hb & Ht & Hlim).
    unfold salvar. rewrite Ht. simpl. split.
    + apply Forall_app. split; [done|]. repeat constructor.
      eapply dentro_do_limite_novo; [done|]. by rewrite Hs.
    + rewrite soma_sentencas_snoc, num_sentencas_novo, Hs. lia.
Qed.

Lemma truthy_strip_of_substring s t :
  trimmed s → Str.substring s t → Str.truthy (Str.strip t) = true.
Proof.
  intros Hs Hsub.
  pose proof (StrFacts.substring_nonempty _ _
                (StrFacts.trimmed_nonempty _ Hs)
                (StrFacts.substring_strip _ _ Hs Hsub)) as Hne.
  by destruct (Str.strip t).
Qed.

Lemma passo_sem_overlap tamanho overlap vistos st sentenca :
  overlap ≤ 0 → trimmed sentenca →
  inv_sem_overlap tamanho vistos st →
  inv_sem_overlap tamanho (S vistos)
    (passo tamanho overlap st sentenca).
Proof.
  intros Hov Hs Hinv. pose proof Hinv as (Hc & Hnil & Hbuf & Hsum).
  unfold passo.
  destruct (Str.len (chunk_atual st) + Str.len sentenca <=? tamanho)
    eqn:Hfit.
  - apply Z.leb_le in Hfit. repeat split; simpl.
    + done.
    + intros Hn. by destruct (sentencas_no_chunk st).
    + intros _. exists (chunk_atual st ++ sentenca).
      split; [by rewrite <- app_assoc|]. split.
      * apply (truthy_strip_of_substring sentenca); [done|].
        apply StrFacts.substring_app_r, StrFacts.substring_app_l,
          StrFacts.substring_refl.
      * left. unfold Str.len in *. rewrite length_app. lia.
    + rewrite length_app. simpl. lia.
  - assert (Hno : (0 <? overlap) = false) by (apply Z.ltb_ge; lia).
    rewrite Hno. simpl.
    destruct (salvar_sem_overlap tamanho vistos st Hinv) as [Hc' Hsum'].
    repeat split; simpl.
    + done.
    + done.
    + intros _. exists sentenca. split; [done|]. split; [|by right].
      rewrite StripFacts.strip_trimmed_space by done.
      by destruct Hs as [(a & r & -> & _) _].
    + lia.
Qed.

Lemma fold_sem_overlap tamanho overlap l : ∀ vistos st,
  overlap ≤ 0 → Forall trimmed l →
  inv_sem_overlap tamanho vistos st →
  inv_sem_overlap tamanho (vistos + length l)
    (fold_left (passo tamanho overlap) l st).
Proof.
  induction l as [|s l IH]; intros vistos st Hov Hall Hinv; simpl.
  - by rewrite Nat.add_0_r.
  - apply Forall_cons in Hall as [Hs Hall].
    replace (vistos + S (length l))%nat with (S vistos + length l)%nat
      by lia.
    apply IH; [done..|]. by apply passo_sem_overlap.
Qed.

Lemma inv_sem_overlap_inicial tamanho : inv_sem_overlap tamanho 0 inicial.
Proof. repeat split; done. Qed.

End BufferFacts.

(** X3. When the segments of the text, joined by single spaces, fit the
    target size, [criar_chunks] returns exactly one chunk: index 0, the
    segments joined by single spaces as its text, and their number as
    ['num_sentencas']. *)
Theorem criar_chunks_um_chunk (nlp : spacy_model) (texto : list N)
    (tamanho_chunk overlap : Z) (usar_spacy : bool) :
  let sents := Chunker.segmentar nlp usar_spacy texto in
  sents ≠ [] →
  ChunkerSpec.total_chars sents + Z.of_nat (length sents) - 1
    ≤ tamanho_chunk →
  ∃ d,
    criar_chunks nlp texto tamanho_chunk overlap usar_spacy = [d]
    ∧ d !! "indice" = Some (VInt 0)
    ∧ d !! "texto" = Some (VStr (Str.join [Str.SP] sents))
    ∧ d !! "num_sentencas" = Some (VInt (Z.of_nat (length sents))).
Proof.
  intros sents Hne Hfit. unfold criar_chunks, Chunker.agrupar. fold sents.
  pose proof (CoverageFacts.segmentar_trimmed nlp usar_spacy texto) as Hall.
  fold sents in Hall.
  change Chunker.inicial with (ChunkSpec.um_buffer []).
  rewrite (BufferFacts.fold_fits tamanho_chunk overlap sents []) by done.
  simpl app.
  pose proof (BufferFacts.join_trimmed sents Hne Hall) as Hj.
  assert (Hstrip : Str.strip (ChunkSpec.buffer sents)
                   = Str.join [Str.SP] sents).
  { rewrite BufferFacts.join_buffer by done.
    by apply StripFacts.strip_trimmed_space. }
  unfold Chunker.salvar. simpl Chunker.chunk_atual. rewrite Hstrip.
  assert (Ht : Str.truthy (Str.join [Str.SP] sents) = true).
  { by destruct Hj as [(a & r & -> & _) _]. }
  rewrite Ht. simpl Chunker.chunks.
  eexists. split; [reflexivity|].
  split; [apply ChunkerFacts.novo_chunk_indice|].
  split; [|apply ChunkFacts.novo_chunk_num_sentencas].
  rewrite ChunkerFacts.novo_chunk_texto. simpl Chunker.chunk_atual.
  by rewrite Hstrip.
Qed.

Lemma criar_chunks_um_chunk_witness :
  let texto := Str.lit "um dois" ++ [Str.NL; Str.NL] ++ Str.lit "tres" in
  let sents := Chunker.segmentar None true texto in
  ∃ d,
    criar_chunks None texto 1000 200 true = [d]
    ∧ d !! "indice" = Some (VInt 0)
    ∧ d !! "texto" = Some (VStr (Str.join [Str.SP] sents))
    ∧ d !! "num_sentencas" = Some (VInt (Z.of_nat (length sents))).
Proof.
  apply (criar_chunks_um_chunk None
           (Str.lit "um dois" ++ [Str.NL; Str.NL] ++ Str.lit "tres")
           1000 200 true).
  - vm_compute. discriminate.
  - vm_compute. discriminate.
Defined.

(** X4. Without overlap ([overlap <= 0]) every chunk of [criar_chunks]
    has a text of at most [tamanho_chunk] characters, unless it is made of
    one single segment, which is never split. *)
Theorem criar_chunks_sem_overlap_limite (nlp : spacy_model)
    (texto : list N) (tamanho_chunk overlap : Z) (usar_spacy : bool) :
  overlap ≤ 0 →
  Forall (ChunkSpec.dentro_do_limite tamanho_chunk)
    (criar_chunks nlp texto tamanho_chunk overlap usar_spacy).
Proof.
  intros Hov. unfold criar_chunks, Chunker.agrupar.
  exact (proj1 (BufferFacts.salvar_sem_overlap tamanho_chunk
                  (0 + length (Chunker.segmentar nlp usar_spacy texto))
                  _ (BufferFacts.fold_sem_overlap tamanho_chunk overlap
                       _ 0%nat Chunker.inicial Hov
                       (CoverageFacts.segmentar_trimmed nlp usar_spacy texto)
                       (BufferFacts.inv_sem_overlap_inicial tamanho_chunk)))).
Qed.

Lemma criar_chunks_sem_overlap_limite_witness :
  Forall (ChunkSpec.dentro_do_limite 10)
    (criar_chunks None
       (Str.lit "aaaa" ++ [Str.NL; Str.NL] ++ Str.lit "bbbb"
          ++ [Str.NL; Str.NL] ++ Str.lit "dddddddddddd") 10 0 true).
Proof.
  apply (criar_chunks_sem_overlap_limite None
           (Str.lit "aaaa" ++ [Str.NL; Str.NL] ++ Str.lit "bbbb"
              ++ [Str.NL; Str.NL] ++ Str.lit "dddddddddddd") 10 0 true).
  lia.
Defined.

(** X5. Without overlap ([overlap <= 0]) the chunks of [criar_chunks]
    partition the segments: their ['num_sentencas'] add up to the number
    of segments the segmentation step produced. *)
Theorem criar_chunks_sem_overlap_particao (nlp : spacy_model)
    (texto : list N) (tamanho_chunk overlap : Z) (usar_spacy : bool) :
  overlap ≤ 0 →
  ChunkSpec.soma_sentencas
    (criar_chunks nlp texto tamanho_chunk overlap usar_spacy)
  = Z.of_nat (length (Chunker.segmentar nlp usar_spacy texto)).
Proof.
  intros Hov. unfold criar_chunks, Chunker.agrupar.
  rewrite (proj2 (BufferFacts.salvar_sem_overlap tamanho_chunk
                    (0 + length (Chunker.segmentar nlp usar_spacy texto))
                    _ (BufferFacts.fold_sem_overlap tamanho_chunk overlap
                         _ 0%nat Chunker.inicial Hov
                         (CoverageFacts.segmentar_trimmed nlp usar_spacy texto)
                         (BufferFacts.inv_sem_overlap_inicial tamanho_chunk)))).
  done.
Qed.

Lemma criar_chunks_sem_overlap_particao_witness :
  ChunkSpec.soma_sentencas
    (criar_chunks None
       (Str.lit "aaaa" ++ [Str.NL; Str.NL] ++ Str.lit "bbbb"
          ++ [Str.NL; Str.NL] ++ Str.lit "dddddddddddd") 10 0 true)
  = Z.of_nat (length (Chunker.segmentar None true
       (Str.lit "aaaa" ++ [Str.NL; Str.NL] ++ Str.lit "bbbb"
          ++ [Str.NL; Str.NL] ++ Str.lit "dddddddddddd"))).
Proof.
  apply (criar_chunks_sem_overlap_particao None
           (Str.lit "aaaa" ++ [Str.NL; Str.NL] ++ Str.lit "bbbb"
              ++ [Str.NL; Str.NL] ++ Str.lit "dddddddddddd") 10 0 true).
  lia.
Defined.

(** ** Word counting *)

Module WordFacts.

Import Str TextSpec.

Lemma split_ws_go_app cur a c b :
  isspace c = true →
  split_ws_go cur (a ++ c :: b) = split_ws_go cur a ++ split_ws_go [] b.
Proof.
  intros Hc. revert cur. induction a as [|x a IH]; intros cur; simpl.
  - rewrite Hc. by destruct (truthy cur).
  - destruct (isspace x); [|apply IH].
    destruct (truthy cur); simpl; by rewrite IH.
Qed.

Lemma split_ws_go_blank s : blank s → split_ws_go [] s = [].
Proof.
  induction 1 as [|c s Hc Hs IH]; simpl; [done|]. by rewrite Hc.
Qed.

Lemma split_ws_go_nonempty cur s :
  truthy cur = true → split_ws_go cur s ≠ [].
Proof.
  revert cur. induction s as [|c s IH]; intros cur Hcur; simpl.
  - by rewrite Hcur.
  - destruct (isspace c); [by rewrite Hcur|].
    apply IH. by destruct cur.
Qed.

Lemma contar_palavras_blank s : blank s → contar_palavras s = 0.
Proof.
  intros Hs. unfold contar_palavras, split_ws.
  by rewrite split_ws_go_blank.
Qed.

Lemma contar_palavras_app a c b :
  isspace c = true →
  contar_palavras (a ++ c :: b) = contar_palavras a + contar_palavras b.
Proof.
  intros Hc. unfold contar_palavras, split_ws.
  rewrite split_ws_go_app, length_app by done. lia.
Qed.

Lemma contar_palavras_blank_l ws t :
  blank ws → contar_palavras (ws ++ t) = contar_palavras t.
Proof.
  induction 1 as [|c ws Hc Hws IH]; [done|].
  change ((c :: ws) ++ t) with ([] ++ c :: (ws ++ t)).
  rewrite contar_palavras_app by done. by rewrite IH.
Qed.

Lemma contar_palavras_blank_r t ws :
  blank ws → contar_palavras (t ++ ws) = contar_palavras t.
Proof.
  intros Hws. destruct Hws as [|c ws Hc Hws]; [by rewrite app_nil_r|].
  rewrite contar_palavras_app by done.
  rewrite (contar_palavras_blank ws) by done. lia.
Qed.

End WordFacts.

(** X6. Word counts add up across whitespace: for a whitespace character
    [c], [contar_palavras(a + c + b)] is
    [contar_palavras(a) + contar_palavras(b)]. *)
Theorem contar_palavras_additive (a b : list N) (c : N) :
  Str.isspace c = true →
  contar_palavras (a ++ c :: b) = contar_palavras a + contar_palavras b.
Proof. apply WordFacts.contar_palavras_app. Qed.

Lemma contar_palavras_additive_witness :
  contar_palavras (Str.lit "um dois" ++ Str.NL :: Str.lit "tres")
  = contar_palavras (Str.lit "um dois") + contar_palavras (Str.lit "tres").
Proof.
  apply (contar_palavras_additive (Str.lit "um dois") (Str.lit "tres") Str.NL).
  reflexivity.
Defined.

(** X7. [contar_palavras] is 0 exactly on texts made of whitespace only
    (the empty text among them), and stripping a text does not change its
    word count. *)
Theorem contar_palavras_zero_and_strip (t : list N) :
  (contar_palavras t = 0 ↔ TextSpec.blank t)
  ∧ contar_palavras (Str.strip t) = contar_palavras t.
Proof.
  split.
  - split; [|apply WordFacts.contar_palavras_blank].
    unfold contar_palavras, Str.split_ws. intros Hz.
    induction t as [|c t IH]; [constructor|].
    simpl in Hz. destruct (Str.isspace c) eqn:Hc.
    + constructor; [done|]. by apply IH.
    + exfalso.
      pose proof (WordFacts.split_ws_go_nonempty [c] t eq_refl) as Hne.
      destruct (Str.split_ws_go [c] t); [done|simpl in Hz; lia].
  - destruct (StripFacts.strip_margins t) as (ws1 & ws2 & Heq & H1 & H2).
    rewrite Heq at 2.
    rewrite WordFacts.contar_palavras_blank_l by done.
    by rewrite WordFacts.contar_palavras_blank_r.
Qed.

(** ** The normaliser and the segmenters on blank and simple texts *)

Module SegFacts.

Import Str Re TextSpec.

Lemma blank_NL : isspace NL = true.
Proof. reflexivity. Qed.

Lemma strip_idempotent s : strip (strip s) = strip s.
Proof.
  destruct (truthy (strip s)) eqn:Ht.
  - by apply StripFacts.strip_trimmed_id, StrFacts.strip_trimmed.
  - destruct (strip s); [reflexivity|done].
Qed.

(** The pieces of [re.split] are made of characters of the subject. *)
Lemma split_go_Forall (P : N → Prop) m s : ∀ prev skip cur,
  Forall P cur → Forall P s →
  Forall (Forall P) (split_go m prev skip cur s).
Proof.
  induction s as [|c s IH]; intros prev skip cur Hcur Hs; simpl.
  - by repeat constructor.
  - apply Forall_cons in Hs as [Hc Hs].
    destruct skip; [|by apply IH].
    destruct (m prev (c :: s)) as [[|n]|].
    + apply IH; [|done]. apply Forall_app. split; [done|].
      by repeat constructor.
    + constructor; [done|]. by apply IH.
    + apply IH; [|done]. apply Forall_app. split; [done|].
      by repeat constructor.
Qed.

Lemma filter_strip_blank (l : list (list N)) :
  Forall blank l →
  map strip (filter (λ p, truthy (strip p) = true) l) = [].
Proof.
  induction 1 as [|p l Hp Hl IH]; [done|].
  rewrite filter_cons_False; [exact IH|].
  by rewrite (StripFacts.strip_blank p Hp).
Qed.

(** A subject without newline has no blank-line separator. *)
Lemma split_blank_lines_none s : ∀ prev cur,
  NL ∉ s → split_go blank_lines prev 0 cur s = [cur ++ s].
Proof.
  induction s as [|c s IH]; intros prev cur Hs; simpl.
  - by rewrite app_nil_r.
  - apply not_elem_of_cons in Hs as [Hc Hs].
    destruct (N.eqb_spec c NL) as [->|_]; [done|].
    rewrite IH by done. by rewrite <- app_assoc.
Qed.

(** A sentence boundary needs one of [.!?] before it. *)
Lemma split_sentence_end_none s : ∀ prev cur,
  (∀ p, prev = Some p → is_end_punct p = false) →
  Forall (λ c, is_end_punct c = false) s →
  split_go sentence_end prev 0 cur s = [cur ++ s].
Proof.
  induction s as [|c s IH]; intros prev cur Hprev Hs; simpl.
  - by rewrite app_nil_r.
  - apply Forall_cons in Hs as [Hc Hs].
    assert (Hm : sentence_end prev (c :: s) = None).
    { unfold sentence_end. destruct prev as [p|]; [|done].
      by rewrite (Hprev p eq_refl). }
    rewrite Hm, IH; [by rewrite <- app_assoc| |done].
    by intros p [= <-].
Qed.

End SegFacts.

(** X8. The output of [limpar_texto] is stripped (stripping it again
    changes nothing), and a text made of whitespace only is normalised to
    the empty text. *)
Theorem limpar_texto_stripped (texto : list N) :
  Str.strip (limpar_texto texto) = limpar_texto texto
  ∧ (TextSpec.blank texto → limpar_texto texto = []).
Proof.
  unfold limpar_texto. split; [apply SegFacts.strip_idempotent|].
  intros Hb. apply StripFacts.strip_blank.
  apply NormFacts.sub_go_Forall; [constructor|].
  apply NormFacts.Forall_lines; [reflexivity|].
  apply NormFacts.sub_go_Forall; [by repeat constructor|].
  apply NormFacts.sub_go_Forall; [by repeat constructor|done].
Qed.

Lemma limpar_texto_stripped_witness :
  Str.strip (limpar_texto [Str.SP; Str.NL; Str.TAB])
  = limpar_texto [Str.SP; Str.NL; Str.TAB]
  ∧ limpar_texto [Str.SP; Str.NL; Str.TAB] = [].
Proof.
  split.
  - apply (proj1 (limpar_texto_stripped [Str.SP; Str.NL; Str.TAB])).
  - apply (proj2 (limpar_texto_stripped [Str.SP; Str.NL; Str.TAB])).
    repeat constructor.
Defined.

(** X9. [segmentar_em_paragrafos] returns only non-empty paragraphs
    without blank at either end; it returns no paragraph for a text of
    whitespace only, and the stripped text as the single paragraph when a
    non-blank text has no line break. *)
Theorem segmentar_em_paragrafos_shape (texto : list N) :
  Forall StrSpec.trimmed (segmentar_em_paragrafos texto)
  ∧ (TextSpec.blank texto → segmentar_em_paragrafos texto = [])
  ∧ (Str.NL ∉ texto → ¬ TextSpec.blank texto →
     segmentar_em_paragrafos texto = [Str.strip texto]).
Proof.
  unfold segmentar_em_paragrafos. split; [|split].
  - apply StrFacts.strip_filter_trimmed.
  - intros Hb. apply SegFacts.filter_strip_blank.
    by apply SegFacts.split_go_Forall.
  - intros Hnl Hnb. unfold Re.split.
    rewrite SegFacts.split_blank_lines_none by done. simpl.
    destruct (Str.strip texto) as [|a r] eqn:Hs.
    + exfalso. apply Hnb. by apply StripFacts.strip_nil_blank.
    + rewrite filter_cons_True by (by rewrite Hs).
      rewrite filter_nil. simpl. by rewrite Hs.
Qed.

Lemma segmentar_em_paragrafos_shape_witness :
  segmentar_em_paragrafos [Str.SP; Str.TAB] = []
  ∧ segmentar_em_paragrafos (Str.lit " um paragrafo ")
    = [Str.strip (Str.lit " um paragrafo ")].
Proof.
  split.
  - apply (proj1 (proj2 (segmentar_em_paragrafos_shape [Str.SP; Str.TAB]))).
    repeat constructor.
  - apply (proj2 (proj2 (segmentar_em_paragrafos_shape
                           (Str.lit " um paragrafo ")))).
    + vm_compute. intros H. repeat (apply elem_of_cons in H as [H|H];
        [discriminate H|]). by apply elem_of_nil in H.
    + intros H. apply Forall_cons in H as [_ H].
      apply Forall_cons in H as [H _]. discriminate H.
Defined.

(** X10. [segmentar_em_frases] returns only non-empty sentences without
    blank at either end; it returns no sentence for a text of whitespace
    only, and the stripped text as the single sentence when a non-blank
    text contains none of the characters [.], [!], [?]. *)
Theorem segmentar_em_frases_shape (texto : list N) :
  Forall StrSpec.trimmed (segmentar_em_frases texto)
  ∧ (TextSpec.blank texto → segmentar_em_frases texto = [])
  ∧ (Forall (λ c, Re.is_end_punct c = false) texto →
     ¬ TextSpec.blank texto →
     segmentar_em_frases texto = [Str.strip texto]).
Proof.
  unfold segmentar_em_frases. split; [|split].
  - apply StrFacts.strip_filter_trimmed.
  - intros Hb. apply SegFacts.filter_strip_blank.
    by apply SegFacts.split_go_Forall.
  - intros Hnp Hnb. unfold Re.split.
    rewrite SegFacts.split_sentence_end_none; [|done|done]. simpl.
    destruct (Str.strip texto) as [|a r] eqn:Hs.
    + exfalso. apply Hnb. by apply StripFacts.strip_nil_blank.
    + rewrite filter_cons_True by (by rewrite Hs).
      rewrite filter_nil. simpl. by rewrite Hs.
Qed.

Lemma segmentar_em_frases_shape_witness :
  segmentar_em_frases [Str.SP; Str.TAB] = []
  ∧ segmentar_em_frases (Str.lit " sem ponto ")
    = [Str.strip (Str.lit " sem ponto ")].
Proof.
  split.
  - apply (proj1 (proj2 (segmentar_em_frases_shape [Str.SP; Str.TAB]))).
    repeat constructor.
  - apply (proj2 (proj2 (segmentar_em_frases_shape (Str.lit " sem ponto ")))).
    + vm_compute. repeat constructor.
    + intros H. apply Forall_cons in H as [_ H].
      apply Forall_cons in H as [H _]. discriminate H.
Defined.

(** ** Truncation, and what is sent to the embedding endpoint *)

Module SendFacts.

Import Client ClientSpec.

(** The two outcomes of [truncar_texto_para_embedding]. *)
Lemma truncar_cases texto max_tokens :
  0 ≤ max_tokens →
  (Str.len texto ≤ max_tokens * 4
   ∧ truncar_texto_para_embedding texto max_tokens = texto)
  ∨ (max_tokens * 4 < Str.len texto
     ∧ ∃ k : nat,
         truncar_texto_para_embedding texto max_tokens = take k texto
         ∧ Z.of_nat k ≤ max_tokens * 4
         ∧ (1 ≤ max_tokens → (1 ≤ k)%nat)).
Proof.
  intros Hmax. unfold truncar_texto_para_embedding.
  destruct (Str.len texto <=? max_tokens * 4) eqn:Hle.
  - left. apply Z.leb_le in Hle. by split.
  - right. apply Z.leb_gt in Hle. split; [done|].
    unfold Str.len in Hle.
    rewrite (TruncFacts.slice_to_nonneg (max_tokens * 4)) by lia.
    set (n := Z.to_nat (max_tokens * 4)).
    assert (Hlen : length (take n texto) = n) by (rewrite length_take; lia).
    destruct (TruncFacts.rfind_spec Str.SP (take n texto))
      as [[-> _]|(k & -> & Hk & _)].
    + exists n. simpl. split; [done|]. lia.
    + apply lookup_lt_Some in Hk. rewrite Hlen in Hk.
      destruct k as [|k'].
      * exists n. simpl. split; [done|]. lia.
      * assert (H0 : (0 <? Z.of_nat (S k')) = true)
          by (apply Z.ltb_lt; lia).
        rewrite H0, TruncFacts.slice_to_nonneg by lia.
        rewrite Nat2Z.id, take_take.
        exists (S k'). replace (S k' `min` n)%nat with (S k') by lia.
        split; [done|]. lia.
Qed.

Lemma truncar_len texto max_tokens :
  0 ≤ max_tokens →
  Str.len (truncar_texto_para_embedding texto max_tokens) ≤ max_tokens * 4.
Proof.
  intros Hmax.
  destruct (truncar_cases texto max_tokens Hmax)
    as [[Hle ->]|(Hgt & k & -> & Hk & _)]; [done|].
  unfold Str.len. rewrite length_take. lia.
Qed.

Lemma truncar_nonempty texto max_tokens :
  1 ≤ max_tokens → texto ≠ [] →
  truncar_texto_para_embedding texto max_tokens ≠ [].
Proof.
  intros Hmax Hne.
  destruct (truncar_cases texto max_tokens ltac:(lia))
    as [[Hle ->]|(Hgt & k & -> & _ & Hk)]; [done|].
  specialize (Hk Hmax). destruct texto; [done|]. by destruct k; [lia|].
Qed.


Lemma sortear_spec amb n : ∀ w,
  length (sortear amb n w).1 = n
  ∧ chamadas (sortear amb n w).2 = chamadas w.
Proof.
  induction n as [|n IH]; intros w; [done|].
  simpl. unfold mbind, M_bind, np_random_rand. simpl.
  specialize (IH {| chamadas := chamadas w; sorteios := S (sorteios w) |}).
  destruct (sortear amb n _) as [vs w']. simpl in *.
  destruct IH as [-> ->]. done.
Qed.

End SendFacts.

(** X11. For a non-negative token limit, the text
    [truncar_texto_para_embedding] returns never has more than
    [max_tokens * 4] characters and truncating it again changes nothing;
    for a limit of at least one token, a non-empty text is never
    truncated to the empty text. *)
Theorem truncar_texto_para_embedding_bounds (texto : list N)
    (max_tokens : Z) :
  0 ≤ max_tokens →
  let r := truncar_texto_para_embedding texto max_tokens in
  Str.len r ≤ max_tokens * 4
  ∧ truncar_texto_para_embedding r max_tokens = r
  ∧ (1 ≤ max_tokens → texto ≠ [] → r ≠ []).
Proof.
  intros Hmax r. subst r.
  pose proof (SendFacts.truncar_len texto max_tokens Hmax) as Hlen.
  split; [done|]. split; [|by apply SendFacts.truncar_nonempty].
  unfold truncar_texto_para_embedding at 1.
  apply Z.leb_le in Hlen. by rewrite Hlen.
Qed.

Lemma truncar_texto_para_embedding_bounds_witness :
  let r := truncar_texto_para_embedding (Str.lit "um dois tres quatro") 2 in
  Str.len r ≤ 2 * 4
  ∧ truncar_texto_para_embedding r 2 = r
  ∧ (1 ≤ 2 → Str.lit "um dois tres quatro" ≠ [] → r ≠ []).
Proof.
  apply (truncar_texto_para_embedding_bounds
           (Str.lit "um dois tres quatro") 2).
  lia.
Defined.

(** X12. [gerar_embedding] sends at most one request, and none for a text
    of whitespace only.  The request it sends holds one text, and that
    text is not empty and has at most 32000 characters. *)
Theorem gerar_embedding_request (amb : Client.ambiente) (texto : list N)
    (w : Client.mundo) :
  let w' := (Client.gerar_embedding amb texto w).2 in
  (ClientSpec.novos_pedidos w w' []
   ∨ ∃ t, ClientSpec.novos_pedidos w w' [Client.EmbeddingsCreate [t]]
        ∧ ClientSpec.texto_enviavel t)
  ∧ (TextSpec.blank texto → ClientSpec.novos_pedidos w w' []).
Proof.
  unfold ClientSpec.novos_pedidos, Client.gerar_embedding.
  destruct (Client.OPENAI_DISPONIVEL amb); simpl.
  2:{ rewrite app_nil_r. by split; [left|]. }
  destruct (Client.inicializar_cliente amb); simpl.
  2:{ rewrite app_nil_r. by split; [left|]. }
  destruct (Str.truthy (Str.strip texto)) eqn:Ht; simpl.
  2:{ rewrite app_nil_r. by split; [left|]. }
  unfold mbind, Client.M_bind, Client.api_embeddings.
  assert (He : ClientSpec.texto_enviavel
                 (truncar_texto_para_embedding (Str.strip texto) 8000)).
  { split.
    - apply SendFacts.truncar_nonempty; [lia|]. by destruct (Str.strip texto).
    - pose proof (SendFacts.truncar_len (Str.strip texto) 8000 ltac:(lia)).
      lia. }
  assert (Hnb : ¬ TextSpec.blank texto).
  { intros Hb. by rewrite (StripFacts.strip_blank texto Hb) in Ht. }
  destruct (Client.embeddings_create amb _) as [[|e es]|e]; simpl;
    (split; [right; eexists; by split|done]).
Qed.

Lemma gerar_embedding_request_witness :
  ClientSpec.novos_pedidos Exemplo.mundo0
    (Client.gerar_embedding Exemplo.amb_falha [Str.SP; Str.TAB]
       Exemplo.mundo0).2 [].
Proof.
  apply (proj2 (gerar_embedding_request Exemplo.amb_falha [Str.SP; Str.TAB]
                  Exemplo.mundo0)).
  repeat constructor.
Defined.



(** ** Cosine similarity: errors and zero vectors *)

Module CosFacts.

Import SelSpec.

Lemma fold_zeros n :
  fold_left (λ acc x : float, (acc + x * x)%float)
    (replicate n 0%float) 0%float = 0%float.
Proof. induction n as [|n IH]; [done|]. simpl. exact IH. Qed.

Lemma norm_zeros n : zero_norm (Np.zeros n).
Proof.
  unfold zero_norm, Np.norm, Np.zeros. rewrite fold_zeros. reflexivity.
Qed.

Lemma similaridade_zero_l e g :
  zero_norm e → calcular_similaridade_coseno e g = (Py.Ok 0%float, []).
Proof.
  unfold zero_norm, calcular_similaridade_coseno. by intros ->.
Qed.

Lemma similaridade_zero_r e g :
  zero_norm g → calcular_similaridade_coseno e g = (Py.Ok 0%float, []).
Proof.
  unfold zero_norm, calcular_similaridade_coseno. intros ->.
  by rewrite orb_true_r.
Qed.

End CosFacts.

(** X14. [calcular_similaridade_coseno] raises only for a dimension
    mismatch, and only when it gets as far as the dot product: it raises
    the [ValueError] of [np.dot] exactly when both norms are non-zero and
    the two vectors differ in length. *)
Theorem calcular_similaridade_coseno_raises (a b : list float)
    (e : Py.exn) :
  (calcular_similaridade_coseno a b).1 = Py.Raise e
  ↔ e = Py.ValueError "shapes not aligned"
    ∧ (Np.norm a =? 0)%float = false
    ∧ (Np.norm b =? 0)%float = false
    ∧ length a ≠ length b.
Proof.
  unfold calcular_similaridade_coseno, Np.dot.
  destruct (Np.norm a =? 0)%float; simpl.
  { split; [done|]. by intros (_ & ? & _). }
  destruct (Np.norm b =? 0)%float; simpl.
  { split; [done|]. by intros (_ & _ & ? & _). }
  case_bool_decide as Hlen; simpl.
  - split; [done|]. by intros (_ & _ & _ & ?).
  - split; [by intros [= <-]|]. by intros (-> & _).
Qed.

(** X15. A vector of zeros, of any dimension, has similarity exactly 0.0
    with every vector, on either side, whatever the dimension of the
    other vector, and without any warning. *)
Theorem calcular_similaridade_coseno_zeros (n : nat) (v : list float) :
  calcular_similaridade_coseno (Np.zeros n) v = (Py.Ok 0%float, [])
  ∧ calcular_similaridade_coseno v (Np.zeros n) = (Py.Ok 0%float, []).
Proof.
  split.
  - apply CosFacts.similaridade_zero_l, CosFacts.norm_zeros.
  - apply CosFacts.similaridade_zero_r, CosFacts.norm_zeros.
Qed.

(** ** The relevance selector: counts, errors, alignment *)

Module SelFacts.

Import Selector SelectorSpec SelSpec.

Lemma similaridades_length chunks g embs i sims :
  similaridades chunks g i embs = Py.Ok sims →
  length sims = length embs.
Proof.
  intros H. destruct (SelectorFacts.similaridades_inv _ _ _ _ _ H)
    as [Hidx _].
  apply (f_equal length) in Hidx.
  by rewrite length_map, length_seq in Hidx.
Qed.

(** More embeddings than chunks: the loop runs off the chunk list. *)
Lemma similaridades_index_error chunks g embs : ∀ i,
  Forall (λ e, length e = length g) embs →
  (i ≤ length chunks)%nat → (length chunks < i + length embs)%nat →
  similaridades chunks g i embs
  = Py.Raise (Py.IndexError "list index out of range").
Proof.
  induction embs as [|e embs IH]; intros i Hdim Hi Hlen; simpl in *;
    [lia|].
  apply Forall_cons in Hdim as [He Hdim].
  destruct (SelectorFacts.similaridade_ok e g He) as [x ->]. cbn.
  destruct (chunks !! i) as [c|] eqn:Hc; cbn; [|done].
  apply lookup_lt_Some in Hc.
  by rewrite IH by (done || lia).
Qed.

(** Every item carries the similarity of the embedding at its own
    position. *)
Lemma similaridades_aligned chunks g embs : ∀ i sims,
  similaridades chunks g i embs = Py.Ok sims →
  Forall (λ it, ∃ e,
    (i ≤ indice_original it)%nat
    ∧ embs !! (indice_original it - i)%nat = Some e
    ∧ (calcular_similaridade_coseno e g).1
      = Py.Ok (similaridade it)) sims.
Proof.
  induction embs as [|e embs IH]; intros i sims; simpl.
  - by intros [= <-].
  - destruct (calcular_similaridade_coseno e g).1 as [x|] eqn:Hx; cbn;
      [|done].
    destruct (chunks !! i) as [c|]; cbn; [|done].
    destruct (similaridades chunks g (S i) embs) as [rest|] eqn:Hrest;
      cbn; [|done].
    intros [= <-]. constructor.
    + exists e. simpl. rewrite Nat.sub_diag. done.
    + eapply Forall_impl; [exact (IH _ _ Hrest)|]. simpl.
      intros it (e' & Hle & He' & Hsim). exists e'.
      split; [lia|]. split; [|done].
      replace (indice_original it - i)%nat
        with (S (indice_original it - S i)) by lia.
      done.
Qed.

End SelFacts.



(** X17. With more embeddings than chunks (and at least one chunk) the
    selector raises [IndexError] when it reaches the first embedding
    without a chunk, and leaves the store as it was. *)
Theorem selecionar_chunks_relevantes_index_error (h : Store.t)
    (chunks : list positive) (embeddings_chunks : list (list float))
    (embedding_global : list float) (percentual_selecao : Q) :
  chunks ≠ [] →
  (length chunks < length embeddings_chunks)%nat →
  Forall (λ e, length e = length embedding_global) embeddings_chunks →
  selecionar_chunks_relevantes h chunks embeddings_chunks embedding_global
    percentual_selecao
  = (Py.Raise (Py.IndexError "list index out of range"), h).
Proof.
  intros Hc Hlen Hdim.
  apply SelectorFacts.selecionar_raise; [done| |].
  - destruct embeddings_chunks; [simpl in Hlen; lia|done].
  - apply SelFacts.similaridades_index_error; [done|lia|lia].
Qed.

Lemma selecionar_chunks_relevantes_index_error_witness :
  selecionar_chunks_relevantes Exemplo.cinco.2 [1%positive]
    Exemplo.embeddings_cinco Exemplo.embedding_global (7 # 10)
  = (Py.Raise (Py.IndexError "list index out of range"), Exemplo.cinco.2).
Proof.
  apply (selecionar_chunks_relevantes_index_error Exemplo.cinco.2
           [1%positive] Exemplo.embeddings_cinco Exemplo.embedding_global
           (7 # 10)).
  - discriminate.
  - vm_compute. lia.
  - repeat constructor.
Defined.

(** X18. Whenever the selector returns from a non-empty embedding list,
    every chunk it returns is the copy of the input chunk at some
    position i with, as ['similaridade'], the cosine similarity between
    the embedding at the same position i and the global embedding. *)
Theorem selecionar_chunks_relevantes_aligned (h : Store.t)
    (chunks : list positive) (embeddings_chunks : list (list float))
    (embedding_global : list float) (percentual_selecao : Q)
    (res : list positive) :
  Forall (λ l, l ∈ dom h) chunks →
  embeddings_chunks ≠ [] →
  let r := selecionar_chunks_relevantes h chunks embeddings_chunks
             embedding_global percentual_selecao in
  r.1 = Py.Ok res →
  Forall (SelSpec.copia_alinhada h r.2 chunks embeddings_chunks
            embedding_global) res.
Proof.
  intros Hval He r. subst r.
  destruct chunks as [|c chunks].
  { simpl. by intros [= <-]. }
  destruct (Selector.similaridades (c :: chunks) embedding_global 0
              embeddings_chunks) as [sims|exn] eqn:Hsims.
  2:{ rewrite (SelectorFacts.selecionar_raise h (c :: chunks)
                 embeddings_chunks embedding_global percentual_selecao exn)
        by done. done. }
  destruct (SelectorFacts.selecionar_spec h (c :: chunks) embeddings_chunks
              embedding_global percentual_selecao sims)
    as (res' & h' & -> & _ & Hcopies); [done..|].
  simpl. intros [= <-].
  pose proof (SelFacts.similaridades_aligned _ _ _ _ _ Hsims) as Hal.
  apply Forall_forall. intros l' Hl'.
  apply list_elem_of_lookup in Hl' as [j Hj].
  destruct (Forall2_lookup_l _ _ _ _ _ Hcopies Hj)
    as (it & Hit & Hfresh & Hch & Hcopy).
  assert (Hin : it ∈ sims).
  { eapply elem_of_submseteq; [|apply SelectorFacts.selecionados_submseteq].
    by eapply list_elem_of_lookup_2. }
  destruct (proj1 (Forall_forall _ _) Hal it Hin) as (e & _ & He' & Hsim).
  rewrite Nat.sub_0_r in He'.
  exists (Selector.indice_original it), (Selector.chunk it), e,
         (Selector.similaridade it).
  by repeat split.
Qed.

Lemma selecionar_chunks_relevantes_aligned_witness :
  ∃ res,
    Forall (SelSpec.copia_alinhada Exemplo.cinco.2
              (selecionar_chunks_relevantes Exemplo.cinco.2 Exemplo.cinco.1
                 Exemplo.embeddings_cinco Exemplo.embedding_global
                 (4 # 10)).2
              Exemplo.cinco.1 Exemplo.embeddings_cinco
              Exemplo.embedding_global) res
    ∧ length res = 2%nat.
Proof.
  exists [6; 7]%positive. split; [|reflexivity].
  apply (selecionar_chunks_relevantes_aligned Exemplo.cinco.2
           Exemplo.cinco.1 Exemplo.embeddings_cinco Exemplo.embedding_global
           (4 # 10) [6; 7]%positive).
  - assert (Exemplo.cinco.1 = [1; 2; 3; 4; 5]%positive) as ->
      by (vm_compute; reflexivity).
    repeat (apply Forall_cons; split;
            [apply elem_of_dom; vm_compute; by eexists|]).
    by apply Forall_nil.
  - discriminate.
  - vm_compute. reflexivity.
Defined.

(** ** Selection when the similarities carry no information *)

Module ZeroFacts.

Import Selector SelectorSpec SelSpec.

Lemma similaridades_zero chunks g embs : ∀ i,
  zero_norm g ∨ Forall zero_norm embs →
  (i + length embs ≤ length chunks)%nat →
  ∃ sims,
    similaridades chunks g i embs = Py.Ok sims
    ∧ map indice_original sims = seq i (length embs)
    ∧ Forall (λ it, chunks !! indice_original it = Some (chunk it)) sims
    ∧ Forall (λ it, similaridade it = 0%float) sims.
Proof.
  induction embs as [|e embs IH]; intros i Hz Hlen; simpl.
  - by exists [].
  - simpl in Hlen.
    assert (Hx : calcular_similaridade_coseno e g = (Py.Ok 0%float, [])).
    { destruct Hz as [Hg|He].
      - by apply CosFacts.similaridade_zero_r.
      - apply CosFacts.similaridade_zero_l.
        by apply Forall_cons in He as [He _]. }
    assert (Hz' : zero_norm g ∨ Forall zero_norm embs).
    { destruct Hz as [Hg|He]; [by left|right].
      by apply Forall_cons in He as [_ He]. }
    destruct (lookup_lt_is_Some_2 chunks i ltac:(lia)) as [c Hc].
    destruct (IH (S i) Hz' ltac:(lia)) as (sims & Hs & Hidx & Hch & H0).
    rewrite Hx. cbn. rewrite Hc. cbn. rewrite Hs. cbn.
    eexists. split; [reflexivity|]. simpl. rewrite Hidx.
    split; [done|]. split; by constructor.
Qed.






End ZeroFacts.



(** ** The prompt builders *)

Module PromptFacts.

Import Client AppSpec RunSpec.





End PromptFacts.


(** ** The generation call and the whole run *)

Module RunFacts.

Import Client App RunSpec ClientSpec.

(** The outcomes of [gerar_texto_o4_mini]. *)
Lemma gerar_texto_cases amb ds tipo_saida tamanho_resumo w :
  let out := gerar_texto_o4_mini amb ds tipo_saida tamanho_resumo w in
  sorteios out.2 = sorteios w
  ∧ ((novos_pedidos w out.2 []
      ∧ llm_sucesso out.1 = false
      ∧ is_Some (llm_erro out.1)
      ∧ tokens_usados out.1 = 0)
     ∨ ∃ prompt,
         novos_pedidos w out.2 [ChatCreate prompt]
         ∧ OPENAI_DISPONIVEL amb = true
         ∧ match chat_create amb prompt with
           | Py.Ok (content, total_tokens) =>
               out.1 = {| llm_texto_gerado := Str.strip content;
                          llm_sucesso := true;
                          llm_erro := None;
                          tokens_usados := total_tokens |}
           | Py.Raise e => out.1 = falha_llm e
           end).
Proof.
  unfold novos_pedidos, gerar_texto_o4_mini.
  destruct (OPENAI_DISPONIVEL amb); simpl.
  2:{ rewrite app_nil_r. split; [done|]. left. by repeat split. }
  destruct (inicializar_cliente amb); simpl.
  2:{ rewrite app_nil_r. split; [done|]. left. by repeat split. }
  destruct (if String.eqb tipo_saida "Resumo" then _ else _)
    as [prompt|e]; simpl.
  2:{ rewrite app_nil_r. split; [done|]. left. by repeat split. }
  unfold mbind, M_bind, api_chat.
  split.
  - by destruct (chat_create amb prompt) as [[content tokens]|e].
  - right. exists prompt.
    by destruct (chat_create amb prompt) as [[content tokens]|e].
Qed.

Lemma gerar_texto_consistente amb ds tipo_saida tamanho_resumo w :
  let r := (gerar_texto_o4_mini amb ds tipo_saida tamanho_resumo w).1 in
  (llm_sucesso r = true → llm_erro r = None)
  ∧ (llm_sucesso r = false → is_Some (llm_erro r)).
Proof.
  destruct (gerar_texto_cases amb ds tipo_saida tamanho_resumo w)
    as [_ [(_ & Hs & He & _)|(prompt & _ & _ & Hr)]]; simpl in *.
  - rewrite Hs. by split.
  - destruct (chat_create amb prompt) as [[content tokens]|e];
      rewrite Hr; simpl; split; done.
Qed.

Local Ltac sem_pedidos :=
  exists []; unfold novos_pedidos; simpl; rewrite ?app_nil_r;
  repeat split; solve [done | simpl; lia | constructor].

Local Ltac um_pedido :=
  simpl; split; [reflexivity|]; split; [simpl; lia|];
  split; [|done]; repeat constructor; by eexists.

Lemma gerar_embedding_pedidos amb texto w :
  ∃ es, novos_pedidos w (gerar_embedding amb texto w).2 es
        ∧ (length es ≤ 1)%nat
        ∧ Forall pedido_de_embedding es
        ∧ (OPENAI_DISPONIVEL amb = false → es = []).
Proof.
  unfold novos_pedidos, gerar_embedding.
  destruct (OPENAI_DISPONIVEL amb); simpl; [|sem_pedidos].
  destruct (inicializar_cliente amb); simpl; [|sem_pedidos].
  destruct (Str.truthy (Str.strip texto)); simpl; [|sem_pedidos].
  unfold mbind, M_bind, api_embeddings.
  eexists [_].
  destruct (embeddings_create amb _) as [[|e es]|e]; um_pedido.
Qed.

Lemma gerar_embeddings_batch_pedidos amb textos w :
  ∃ es, novos_pedidos w (gerar_embeddings_batch amb textos w).2 es
        ∧ (length es ≤ 1)%nat
        ∧ Forall pedido_de_embedding es
        ∧ (OPENAI_DISPONIVEL amb = false → es = []).
Proof.
  unfold novos_pedidos, gerar_embeddings_batch.
  case_bool_decide; [sem_pedidos|].
  destruct (OPENAI_DISPONIVEL amb); simpl.
  2:{ destruct (SendFacts.sortear_spec amb (length textos) w)
        as [_ Hs].
      exists []. rewrite Hs, app_nil_r.
      repeat split; solve [done | simpl; lia | constructor]. }
  destruct (inicializar_cliente amb); simpl; [|sem_pedidos].
  case_bool_decide; [sem_pedidos|].
  unfold mbind, M_bind, api_embeddings.
  eexists [_].
  destruct (embeddings_create amb _) as [es|e]; um_pedido.
Qed.

Lemma gerar_embeddings_para_chunks_pedidos amb ds w :
  ∃ es, novos_pedidos w (gerar_embeddings_para_chunks amb ds w).2 es
        ∧ (length es ≤ 1)%nat
        ∧ Forall pedido_de_embedding es
        ∧ (OPENAI_DISPONIVEL amb = false → es = []).
Proof.
  unfold gerar_embeddings_para_chunks.
  case_bool_decide; [sem_pedidos|].
  destruct (textos_de ds) as [textos|e]; simpl; [|sem_pedidos].
  unfold mbind, M_bind.
  destruct (gerar_embeddings_batch_pedidos amb textos w) as (es & Hes).
  exists es. by destruct (gerar_embeddings_batch amb textos w).
Qed.

(** The result dict after the generation call. *)
Lemma com_resposta_consistente r resposta :
  sucesso r = false → texto_gerado r = [] → estatisticas_saida r = None →
  erro r = None →
  (llm_sucesso resposta = true → llm_erro resposta = None) →
  (llm_sucesso resposta = false → is_Some (llm_erro resposta)) →
  let r' := com_resposta r resposta in
  sucesso r' = llm_sucesso resposta
  ∧ (sucesso r' = true ↔ erro r' = None)
  ∧ (sucesso r' = true →
     estatisticas_saida r'
     = Some (calcular_estatisticas (texto_gerado r')))
  ∧ (sucesso r' = false →
     texto_gerado r' = [] ∧ estatisticas_saida r' = None)
  ∧ estatisticas_entrada r' = estatisticas_entrada r.
Proof.
  intros Hs Ht He Herr H1 H2. unfold com_resposta.
  destruct (llm_sucesso resposta) eqn:Hl; simpl.
  - by rewrite Herr.
  - rewrite Hs. destruct (H2 eq_refl) as [m ->]. by repeat split.
Qed.

End RunFacts.

(** X21. [gerar_texto_o4_mini] reports success exactly when it reports no
    error message.  It sends at most one chat request, and none without
    the client library; it succeeds exactly when that request was sent
    and answered, and then returns the stripped content and the token
    count of the answer; a failure reports 0 tokens. *)
Theorem gerar_texto_o4_mini_outcome (amb : Client.ambiente)
    (chunks_selecionados : list dict) (tipo_saida tamanho_resumo : string)
    (w : Client.mundo) :
  let out := Client.gerar_texto_o4_mini amb chunks_selecionados tipo_saida
               tamanho_resumo w in
  (Client.llm_sucesso out.1 = true ↔ Client.llm_erro out.1 = None)
  ∧ (Client.llm_sucesso out.1 = false → Client.tokens_usados out.1 = 0)
  ∧ (Client.OPENAI_DISPONIVEL amb = false →
     ClientSpec.novos_pedidos w out.2 [])
  ∧ ((ClientSpec.novos_pedidos w out.2 []
      ∧ Client.llm_sucesso out.1 = false)
     ∨ ∃ prompt,
         ClientSpec.novos_pedidos w out.2 [Client.ChatCreate prompt]
         ∧ match Client.chat_create amb prompt with
           | Py.Ok (content, total_tokens) =>
               Client.llm_sucesso out.1 = true
               ∧ Client.llm_texto_gerado out.1 = Str.strip content
               ∧ Client.tokens_usados out.1 = total_tokens
           | Py.Raise e =>
               Client.llm_sucesso out.1 = false
               ∧ Client.llm_texto_gerado out.1 = []
           end).
Proof.
  intros out. subst out.
  destruct (RunFacts.gerar_texto_cases amb chunks_selecionados tipo_saida
              tamanho_resumo w)
    as [_ [(Hn & Hs & [m He] & Ht)|(prompt & Hn & Hd & Hr)]]; simpl in *.
  - rewrite Hs, He. split; [by split|]. split; [done|]. split; [done|].
    by left.
  - destruct (Client.chat_create amb prompt) as [[content tokens]|e] eqn:Hc;
      rewrite Hr; simpl.
    + split; [by split|]. split; [done|]. split; [by rewrite Hd|].
      right. exists prompt. split; [done|]. by rewrite Hc.
    + split; [by split|]. split; [done|]. split; [by rewrite Hd|].
      right. exists prompt. split; [done|]. by rewrite Hc.
Qed.

Lemma gerar_texto_o4_mini_outcome_witness :
  Client.tokens_usados
    (Client.gerar_texto_o4_mini Cenario.amb_sem_biblioteca [] "Resumo"
       "Medio" Exemplo.mundo0).1 = 0.
Proof.
  apply (gerar_texto_o4_mini_outcome Cenario.amb_sem_biblioteca [] "Resumo"
           "Medio" Exemplo.mundo0).
  reflexivity.
Defined.

(** X22. In every environment, the dict [processar_texto] returns is
    consistent: ['sucesso'] is true exactly when ['erro'] is [None]; a
    successful run holds the statistics of the generated text; a failed
    run holds no generated text and no output statistics; and the input
    statistics are always those of the cleaned input text. *)
Theorem processar_texto_result_consistent (amb : Client.ambiente)
    (texto_entrada : list N) (tipo_saida tamanho_resumo : string)
    (mostrar_detalhes : bool) (w : Client.mundo) :
  let r := (App.processar_texto amb texto_entrada tipo_saida tamanho_resumo
              mostrar_detalhes w).1.1 in
  (App.sucesso r = true ↔ App.erro r = None)
  ∧ (App.sucesso r = true →
     App.estatisticas_saida r
     = Some (calcular_estatisticas (App.texto_gerado r)))
  ∧ (App.sucesso r = false →
     App.texto_gerado r = [] ∧ App.estatisticas_saida r = None)
  ∧ App.estatisticas_entrada r
    = Some (calcular_estatisticas (limpar_texto texto_entrada)).
Proof.
  unfold App.processar_texto, processar_texto_completo.
  destruct (Store.alloc_all ∅ _) as [refs h].
  unfold mbind, Client.M_bind.
  destruct (Client.gerar_embedding amb _ w) as [eg w1].
  destruct (Client.gerar_embeddings_para_chunks amb _ w1)
    as [[embs|e] w2]; simpl.
  2:{ by repeat split. }
  destruct (selecionar_chunks_relevantes h refs embs eg (7 # 10))
    as [[sel|e] h']; simpl.
  2:{ by repeat split. }
  pose proof (RunFacts.gerar_texto_consistente amb
                (map (Store.get h') sel) tipo_saida tamanho_resumo w2)
    as [H1 H2].
  destruct (Client.gerar_texto_o4_mini amb _ tipo_saida tamanho_resumo w2)
    as [resposta w3].
  simpl in *.
  match goal with
  | |- context [App.com_resposta ?r resposta] =>
      destruct (RunFacts.com_resposta_consistente r resposta
                  eq_refl eq_refl eq_refl eq_refl H1 H2)
        as (_ & Ha & Hb & Hc & Hd)
  end.
  by rewrite Hd.
Qed.

(** X23. In every environment, one run of [processar_texto] sends at most
    two embedding requests and, after them, at most one chat request,
    and nothing else; a successful run has sent the chat request; and
    without the client library the run sends nothing and fails. *)
Theorem processar_texto_requests (amb : Client.ambiente)
    (texto_entrada : list N) (tipo_saida tamanho_resumo : string)
    (mostrar_detalhes : bool) (w : Client.mundo) :
  let out := App.processar_texto amb texto_entrada tipo_saida tamanho_resumo
               mostrar_detalhes w in
  ∃ es cs,
    ClientSpec.novos_pedidos w out.2 (es ++ cs)
    ∧ (length es ≤ 2)%nat
    ∧ Forall RunSpec.pedido_de_embedding es
    ∧ RunSpec.no_maximo_um_chat cs
    ∧ (App.sucesso out.1.1 = true → cs ≠ [])
    ∧ (Client.OPENAI_DISPONIVEL amb = false →
       es = [] ∧ cs = [] ∧ App.sucesso out.1.1 = false).
Proof.
  unfold App.processar_texto, processar_texto_completo.
  destruct (Store.alloc_all ∅ _) as [refs h].
  unfold mbind, Client.M_bind, ClientSpec.novos_pedidos.
  destruct (RunFacts.gerar_embedding_pedidos amb
              (limpar_texto texto_entrada) w)
    as (es1 & Hw1 & Hl1 & Hf1 & Hn1).
  destruct (Client.gerar_embedding amb _ w) as [eg w1].
  destruct (RunFacts.gerar_embeddings_para_chunks_pedidos amb
              (map (Store.get h) refs) w1)
    as (es2 & Hw2 & Hl2 & Hf2 & Hn2).
  unfold ClientSpec.novos_pedidos in *. simpl in Hw1.
  assert (Hes : (length (es1 ++ es2) ≤ 2)%nat)
    by (rewrite length_app; lia).
  assert (Hfs : Forall RunSpec.pedido_de_embedding (es1 ++ es2))
    by (by apply Forall_app).
  destruct (Client.gerar_embeddings_para_chunks amb _ w1)
    as [[embs|e] w2]; simpl in *.
  2:{ exists (es1 ++ es2), []. rewrite app_nil_r, Hw2, Hw1, app_assoc.
      split; [done|]. split; [done|]. split; [done|].
      split; [by left|]. split; [done|].
      intros Hd. by rewrite (Hn1 Hd), (Hn2 Hd). }
  destruct (selecionar_chunks_relevantes h refs embs eg (7 # 10))
    as [[sel|e] h']; simpl.
  2:{ exists (es1 ++ es2), []. rewrite app_nil_r, Hw2, Hw1, app_assoc.
      split; [done|]. split; [done|]. split; [done|].
      split; [by left|]. split; [done|].
      intros Hd. by rewrite (Hn1 Hd), (Hn2 Hd). }
  destruct (RunFacts.gerar_texto_cases amb (map (Store.get h') sel)
              tipo_saida tamanho_resumo w2) as [_ Hcases].
  pose proof (RunFacts.gerar_texto_consistente amb
                (map (Store.get h') sel) tipo_saida tamanho_resumo w2)
    as [H1 H2].
  destruct (Client.gerar_texto_o4_mini amb _ tipo_saida tamanho_resumo w2)
    as [resposta w3].
  unfold ClientSpec.novos_pedidos in *. simpl in *.
  match goal with
  | |- context [App.com_resposta ?r resposta] =>
      destruct (RunFacts.com_resposta_consistente r resposta
                  eq_refl eq_refl eq_refl eq_refl H1 H2)
        as (Hsuc & _)
  end.
  rewrite Hsuc.
  destruct Hcases as [(Hw3 & Hs & _)|(prompt & Hw3 & Hd & _)].
  - exists (es1 ++ es2), [].
    rewrite Hw3, !app_nil_r, Hw2, Hw1, app_assoc.
    split; [done|]. split; [done|]. split; [done|].
    split; [by left|]. split; [by rewrite Hs|].
    intros Hd. by rewrite (Hn1 Hd), (Hn2 Hd).
  - exists (es1 ++ es2), [Client.ChatCreate prompt].
    rewrite Hw3, Hw2, Hw1, !app_assoc.
    split; [done|]. split; [done|]. split; [done|].
    split; [right; by eexists|]. split; [done|].
    intros Hd'. by rewrite Hd in Hd'.
Qed.

(** ** Statistics *)

Module StatFacts.

Import Str Re TextSpec StatSpec.

Lemma blank_nonblank s : blank s → nonblank s → False.
Proof.
  intros Hb Hn. apply Exists_exists in Hn as (c & Hc & Hsp).
  pose proof (proj1 (Forall_forall _ _) Hb c Hc) as Ht.
  by rewrite Ht in Hsp.
Qed.

Lemma not_blank_nonblank s : ¬ blank s → nonblank s.
Proof.
  induction s as [|c s IH]; intros Hn.
  - exfalso. apply Hn. constructor.
  - destruct (isspace c) eqn:Hc.
    + right. apply IH. intros Hb. apply Hn. by constructor.
    + by left.
Qed.

Lemma take_while_spec p s :
  ∃ rest, s = take_while p s ++ rest
          ∧ Forall (λ c, p c = true) (take_while p s).
Proof.
  induction s as [|c s (rest & Hs & Hall)]; simpl.
  - by exists [].
  - destruct (p c) eqn:Hc.
    + exists rest. simpl. split; [by rewrite <- Hs|by constructor].
    + by exists (c :: s).
Qed.

Lemma last_index_bound c s : ∀ i last k,
  last_index c s i last = Some k →
  last = Some k ∨ (i ≤ k < i + length s)%nat.
Proof.
  induction s as [|x s IH]; intros i last k; simpl; [by left|].
  intros H. apply IH in H as [H|H]; [|right; lia].
  destruct (x =? c)%N; [|by left].
  injection H as <-. right. lia.
Qed.

Lemma blank_lines_so_espacos : so_espacos blank_lines.
Proof.
  intros prev s n H. unfold blank_lines in H.
  destruct s as [|c r]; [done|].
  destruct (N.eqb_spec c NL) as [->|]; [|done].
  destruct (last_index NL (take_while isspace r) 0 None) as [k|] eqn:Hl;
    [|done].
  injection H as <-.
  apply last_index_bound in Hl as [?|Hk]; [done|].
  destruct (take_while_spec isspace r) as (rest & Hr & Hall).
  revert Hk Hr Hall. generalize (take_while isspace r). intros ws Hk -> Hall.
  replace (k + 2)%nat with (S (S k)) by lia.
  rewrite firstn_cons. constructor; [done|].
  rewrite take_app_le by lia. by apply Forall_take.
Qed.

Lemma sentence_end_so_espacos : so_espacos sentence_end.
Proof.
  intros prev s n H. unfold sentence_end in H.
  destruct prev as [p|]; [|done].
  destruct (is_end_punct p); [|done]. cbv zeta in H.
  destruct (take_while_spec isspace s) as (rest & Hs & Hall).
  revert H Hs Hall. generalize (take_while isspace s). intros ws H Hs Hall.
  destruct (length ws) as [|k] eqn:Hl; [done|].
  destruct (drop (S k) s) as [|c r]; [done|].
  destruct (is_upper c); [|done].
  injection H as <-. rewrite Hs, <- Hl, take_app_length. done.
Qed.

Lemma nonblank_snoc cur c r :
  nonblank cur ∨ nonblank (c :: r) → nonblank (cur ++ [c]) ∨ nonblank r.
Proof.
  unfold nonblank. intros [H|H].
  - left. apply Exists_app. by left.
  - apply Exists_cons in H as [H|H]; [left|by right].
    apply Exists_app. right. by constructor.
Qed.

(** A pattern that matches whitespace only leaves every other character
    in some piece. *)
Lemma split_go_nonblank m s :
  so_espacos m → ∀ prev skip cur,
  blank (take skip s) →
  nonblank cur ∨ nonblank (drop skip s) →
  Exists nonblank (split_go m prev skip cur s).
Proof.
  intros Hm. induction s as [|c r IH]; intros prev skip cur Hb Hn; simpl.
  - rewrite drop_nil in Hn. destruct Hn as [Hn|Hn]; [by left|].
    by apply Exists_nil in Hn.
  - destruct skip as [|k].
    + rewrite drop_0 in Hn.
      destruct (m prev (c :: r)) as [[|n]|] eqn:Hmatch.
      * apply IH; [rewrite take_0; constructor|].
        rewrite drop_0. by apply nonblank_snoc.
      * destruct Hn as [Hn|Hn]; [by left|right].
        pose proof (Hm _ _ _ Hmatch) as Hws. rewrite firstn_cons in Hws.
        apply Forall_cons in Hws as [Hc Hws].
        apply IH; [done|right].
        apply Exists_cons in Hn as [Hn|Hn]; [by rewrite Hc in Hn|].
        rewrite <- (take_drop n r) in Hn.
        apply Exists_app in Hn as [Hn|Hn]; [|done].
        exfalso. by eapply blank_nonblank.
      * apply IH; [rewrite take_0; constructor|].
        rewrite drop_0. by apply nonblank_snoc.
    + rewrite firstn_cons in Hb. apply Forall_cons in Hb as [_ Hb].
      by apply IH.
Qed.

Lemma segmentos_nonempty m t :
  so_espacos m → nonblank t →
  map strip (filter (λ p, truthy (strip p) = true) (Re.split m t)) ≠ [].
Proof.
  intros Hm Ht.
  assert (Hex : Exists nonblank (Re.split m t)).
  { apply split_go_nonblank; [done|rewrite take_0; constructor|].
    right. by rewrite drop_0. }
  apply Exists_exists in Hex as (p & Hp & Hnb).
  assert (Hin : p ∈ filter (λ p, truthy (strip p) = true) (Re.split m t)).
  { apply list_elem_of_filter. split; [|done].
    destruct (strip p) eqn:Hs; [|done].
    exfalso. eapply blank_nonblank; [|exact Hnb].
    by apply StripFacts.strip_nil_blank. }
  intros Hnil. apply map_eq_nil in Hnil. rewrite Hnil in Hin.
  by apply elem_of_nil in Hin.
Qed.

Lemma split_ws_go_length s : ∀ cur,
  (length (split_ws_go cur s)
   ≤ length s + (if truthy cur then 1 else 0))%nat.
Proof.
  induction s as [|c s IH]; intros cur; simpl.
  - destruct (truthy cur); simpl; lia.
  - destruct (isspace c).
    + specialize (IH []). simpl in IH. destruct (truthy cur); simpl; lia.
    + specialize (IH (cur ++ [c])).
      assert (Ht : truthy (cur ++ [c]) = true) by (by destruct cur).
      rewrite Ht in IH. destruct (truthy cur); lia.
Qed.

Lemma length_zero_iff {A} (l : list A) : Z.of_nat (length l) = 0 ↔ l = [].
Proof. destruct l; simpl; split; (done || lia). Qed.

End StatFacts.

(** X24. The statistics of a text agree on whether there is any text: the
    word count, the sentence count and the paragraph count are each 0
    exactly when the text is made of whitespace only; and the word count
    never exceeds the character count. *)
Theorem calcular_estatisticas_consistent (texto : list N) :
  let e := calcular_estatisticas texto in
  (num_palavras e = 0 ↔ TextSpec.blank texto)
  ∧ (num_frases e = 0 ↔ TextSpec.blank texto)
  ∧ (num_paragrafos e = 0 ↔ TextSpec.blank texto)
  ∧ 0 ≤ num_palavras e ≤ num_caracteres e.
Proof.
  simpl. split; [|split; [|split]].
  - split; [|apply WordFacts.contar_palavras_blank].
    intros Hz. destruct (decide (TextSpec.blank texto)) as [|Hn]; [done|].
    exfalso. apply StatFacts.not_blank_nonblank in Hn.
    unfold contar_palavras, Str.split_ws in Hz.
    apply StatFacts.length_zero_iff in Hz.
    clear -Hz Hn. revert Hz. generalize (@nil N) as cur.
    induction Hn as [c s Hc|c s Hn IH]; intros cur; simpl.
    + rewrite Hc. apply WordFacts.split_ws_go_nonempty. by destruct cur.
    + destruct (Str.isspace c); [|apply IH].
      destruct (Str.truthy cur); [done|apply IH].
  - rewrite StatFacts.length_zero_iff. split.
    + intros Hz. destruct (decide (TextSpec.blank texto)) as [|Hn]; [done|].
      exfalso. revert Hz. apply StatFacts.segmentos_nonempty.
      * apply StatFacts.sentence_end_so_espacos.
      * by apply StatFacts.not_blank_nonblank.
    + intros Hb. apply SegFacts.filter_strip_blank.
      by apply SegFacts.split_go_Forall.
  - rewrite StatFacts.length_zero_iff. split.
    + intros Hz. destruct (decide (TextSpec.blank texto)) as [|Hn]; [done|].
      exfalso. revert Hz. apply StatFacts.segmentos_nonempty.
      * apply StatFacts.blank_lines_so_espacos.
      * by apply StatFacts.not_blank_nonblank.
    + intros Hb. apply SegFacts.filter_strip_blank.
      by apply SegFacts.split_go_Forall.
  - unfold contar_palavras, Str.split_ws, Str.len.
    pose proof (StatFacts.split_ws_go_length texto []) as H.
    simpl in H. lia.
Qed.

(** ** The availability check *)

(** X25. The flags [verificar_disponibilidade_api] reports form a chain:
    the API is reported accessible only with a configured key, and a key
    is reported only with the library installed.  The check sends at most
    one request, the embedding of the text "teste", and reports the API
    accessible exactly when that request was sent and answered; the
    message is never empty. *)
Theorem verificar_disponibilidade_api_flags (amb : Client.ambiente)
    (w : Client.mundo) :
  let out := Verificador.verificar_disponibilidade_api amb w in
  let teste := Client.EmbeddingsCreate [Str.lit "teste"] in
  (Verificador.api_acessivel out.1 = true →
   Verificador.chave_configurada out.1 = true)
  ∧ (Verificador.chave_configurada out.1 = true →
     Verificador.biblioteca_instalada out.1 = true)
  ∧ Verificador.biblioteca_instalada out.1 = Client.OPENAI_DISPONIVEL amb
  ∧ Verificador.mensagem out.1 ≠ ""
  ∧ ((ClientSpec.novos_pedidos w out.2 []
      ∧ Verificador.api_acessivel out.1 = false)
     ∨ (ClientSpec.novos_pedidos w out.2 [teste]
        ∧ (Verificador.api_acessivel out.1 = true
           ↔ ∃ es, Client.embeddings_create amb [Str.lit "teste"]
                   = Py.Ok es))).
Proof.
  unfold Verificador.verificar_disponibilidade_api, ClientSpec.novos_pedidos.
  destruct (Client.OPENAI_DISPONIVEL amb) eqn:Hd; simpl.
  2:{ rewrite ?Hd, app_nil_r. repeat split; try done. by left. }
  destruct (Client.OPENAI_API_KEY amb) as [[|c k]|] eqn:Hk; simpl.
  1,3: rewrite ?Hd, app_nil_r; repeat split; try done; by left.
  unfold Client.inicializar_cliente. rewrite ?Hd, Hk. simpl.
  unfold mbind, Client.M_bind, Client.api_embeddings.
  destruct (Client.embeddings_create amb [Str.lit "teste"]) as [es|e];
    simpl; rewrite ?Hd; repeat split; try done.
  - right. split; [done|]. split; [by eexists|done].
  - right. split; [done|]. split; [done|]. by intros [es Hes].
Qed.

(** ** Named entities *)

Module NerFacts.

Import Ner NerSpec.












End NerFacts.


(** ** A run of the application when both endpoints answer *)

Module HealthyFacts.

Import Client App AppSpec SelSpec.

Lemma similaridades_ok chunks g embs i :
  zero_norm g ∨ Forall (λ e, length e = length g) embs →
  (i + length embs ≤ length chunks)%nat →
  ∃ sims, Selector.similaridades chunks g i embs = Py.Ok sims.
Proof.
  intros [Hz|Hdim] Hlen.
  - destruct (ZeroFacts.similaridades_zero chunks g embs i
                (or_introl Hz) Hlen) as (sims & Hs & _).
    by exists sims.
  - destruct (SelectorFacts.similaridades_spec chunks g embs i Hdim Hlen)
      as (sims & Hs & _).
    by exists sims.
Qed.

(** Selection over the chunks of a run returns chunks of the run. *)
Lemma selecionar_ok (h : Store.t) refs embs g f :
  Forall (λ l, l ∈ dom h ∧ has_texto (Store.get h l)) refs →
  length embs = length refs →
  zero_norm g ∨ Forall (λ e, length e = length g) embs →
  ∃ res h',
    selecionar_chunks_relevantes h refs embs g f = (Py.Ok res, h')
    ∧ Forall has_texto (map (Store.get h') res)
    ∧ (length res ≤ length refs)%nat
    ∧ (refs = [] ↔ res = []).
Proof.
  intros Hrefs Hlen Hg.
  destruct refs as [|c refs].
  { destruct embs; [|done]. exists [], h. by repeat split. }
  destruct embs as [|e embs]; [done|].
  destruct (similaridades_ok (c :: refs) g (e :: embs) 0 Hg
              ltac:(simpl in *; lia)) as (sims & Hsims).
  destruct (SelectorFacts.selecionar_spec h (c :: refs) (e :: embs) g f sims)
    as (res & h' & Hsel & _ & Hcopies); [done|done| |done|].
  { eapply Forall_impl; [exact Hrefs|]. by intros l [Hl _]. }
  exists res, h'. split; [done|].
  assert (Hres : length res
                 = (Z.to_nat (Selector.num_selecionar (length (c :: refs)) f)
                    `min` length (e :: embs))%nat).
  { rewrite (Forall2_length _ _ _ Hcopies).
    rewrite SelectorFacts.selecionados_length
      by (unfold Selector.num_selecionar; lia).
    by rewrite (SelFacts.similaridades_length _ _ _ _ _ Hsims). }
  split; [|split].
  - apply Forall_fmap, Forall_forall. intros l' Hl'.
    apply list_elem_of_lookup in Hl' as [j Hj].
    destruct (Forall2_lookup_l _ _ _ _ _ Hcopies Hj)
      as (it & _ & _ & Hch & Hcopy).
    unfold compose, has_texto, Store.get. rewrite Hcopy. simpl.
    rewrite lookup_insert_ne by done.
    apply list_elem_of_lookup_2 in Hch.
    by destruct (proj1 (Forall_forall _ _) Hrefs _ Hch) as [_ Ht].
  - rewrite Hres, Hlen. lia.
  - split; [done|]. intros ->. exfalso. revert Hres.
    unfold Selector.num_selecionar. simpl length. lia.
Qed.

Section ambiente_saudavel.

Context (amb : ambiente) (d : nat).
Hypothesis disponivel : OPENAI_DISPONIVEL amb = true.
Hypothesis cliente_ok : inicializar_cliente amb = Py.Ok ().
Hypothesis embeddings_ok :
  ∀ input, ∃ es,
    embeddings_create amb input = Py.Ok es
    ∧ length es = length input
    ∧ Forall (λ e, length e = d) es.

Lemma gerar_embedding_saudavel texto w :
  let g := (gerar_embedding amb texto w).1 in
  zero_norm g ∨ length g = d.
Proof using disponivel cliente_ok embeddings_ok.
  unfold gerar_embedding. rewrite disponivel, cliente_ok. simpl negb.
  cbv iota.
  destruct (Str.truthy (Str.strip texto)); simpl negb; cbv iota;
    [|left; apply CosFacts.norm_zeros].
  unfold mbind, M_bind, api_embeddings.
  destruct (embeddings_ok
              [truncar_texto_para_embedding (Str.strip texto) 8000])
    as (es & -> & Hl & Hd).
  destruct es as [|e es]; [done|]. simpl. right.
  by apply Forall_cons in Hd as [Hd _].
Qed.

Lemma gerar_embeddings_batch_saudavel textos w :
  let es := (gerar_embeddings_batch amb textos w).1 in
  length es = length textos ∧ Forall (λ e, length e = d) es.
Proof using disponivel cliente_ok embeddings_ok.
  unfold gerar_embeddings_batch. case_bool_decide as Ht.
  { subst. by split. }
  rewrite disponivel, cliente_ok. simpl negb. cbv iota.
  case_bool_decide as Hm.
  { by apply map_eq_nil in Hm. }
  unfold mbind, M_bind, api_embeddings.
  destruct (embeddings_ok (map limpar_para_batch textos))
    as (es & -> & Hl & Hd).
  simpl. by rewrite length_map in Hl.
Qed.

Lemma gerar_embeddings_para_chunks_saudavel ds w :
  Forall has_texto ds →
  ∃ es, (gerar_embeddings_para_chunks amb ds w).1 = Py.Ok es
        ∧ length es = length ds
        ∧ Forall (λ e, length e = d) es.
Proof using disponivel cliente_ok embeddings_ok.
  intros Hds. unfold gerar_embeddings_para_chunks.
  case_bool_decide as Hd; [subst; by exists []|].
  destruct (AppFacts.textos_de_ok ds Hds) as (ts & -> & Hlen).
  unfold mbind, M_bind.
  destruct (gerar_embeddings_batch_saudavel ts w) as [Hl Hdim].
  destruct (gerar_embeddings_batch amb ts w) as [es w']. simpl in *.
  exists es. split; [done|]. split; [lia|done].
Qed.

End ambiente_saudavel.

End HealthyFacts.

(** X27. When the client library is present, a key is configured, the
    embedding endpoint answers every request with one vector per text,
    all of one dimension, and the chat endpoint answers, every run of
    [processar_texto] succeeds without error message: the generated text
    is the stripped answer to the chat request, which is the last request
    of the run; the selected chunks are at most as many as the chunks,
    and there are some exactly when there are chunks; and the embedding
    count reported is the number of chunks plus one. *)
Theorem processar_texto_healthy_run (amb : Client.ambiente) (d : nat)
    (texto_entrada : list N) (tipo_saida tamanho_resumo : string)
    (mostrar_detalhes : bool) (w : Client.mundo) :
  Client.OPENAI_DISPONIVEL amb = true →
  Client.inicializar_cliente amb = Py.Ok () →
  (∀ input, ∃ es,
     Client.embeddings_create amb input = Py.Ok es
     ∧ length es = length input
     ∧ Forall (λ e, length e = d) es) →
  (∀ prompt, ∃ content total_tokens,
     Client.chat_create amb prompt = Py.Ok (content, total_tokens)) →
  let out := App.processar_texto amb texto_entrada tipo_saida tamanho_resumo
               mostrar_detalhes w in
  let r := out.1.1 in
  App.sucesso r = true
  ∧ App.erro r = None
  ∧ (∃ prompt content total_tokens,
       last (Client.chamadas out.2) = Some (Client.ChatCreate prompt)
       ∧ Client.chat_create amb prompt = Py.Ok (content, total_tokens)
       ∧ App.texto_gerado r = Str.strip content)
  ∧ (length (App.chunks_selecionados r) ≤ length (App.chunks r))%nat
  ∧ (App.chunks r = [] ↔ App.chunks_selecionados r = [])
  ∧ ∃ dimensao,
      App.embeddings_info r
      = Some (dimensao, Z.of_nat (length (App.chunks r)) + 1).
Proof.
  intros Hd Hc Hemb Hchat.
  unfold App.processar_texto, processar_texto_completo.
  set (texto_limpo := limpar_texto texto_entrada).
  pose proof (AppFacts.criar_chunks_has_texto (Client.spacy amb) texto_limpo
                500 200 true) as Htexto.
  destruct (Store.alloc_all ∅ _) as [refs h] eqn:Halloc.
  destruct (AppFacts.alloc_all_spec _ _ _ _ Halloc) as [_ Hrefs].
  assert (Hwf : Forall (λ l, l ∈ dom h
                             ∧ AppSpec.has_texto (Store.get h l)) refs).
  { apply Forall_forall. intros l Hl.
    apply list_elem_of_lookup in Hl as [j Hj].
    destruct (Forall2_lookup_l _ _ _ _ _ Hrefs Hj) as (dj & Hdj & Hld).
    split; [apply elem_of_dom; by eexists|].
    unfold Store.get. rewrite Hld. simpl.
    apply (proj1 (Forall_forall _ _) Htexto).
    by eapply list_elem_of_lookup_2. }
  unfold mbind, Client.M_bind.
  pose proof (HealthyFacts.gerar_embedding_saudavel amb d Hd Hc Hemb
                texto_limpo w) as Hg.
  destruct (Client.gerar_embedding amb texto_limpo w) as [eg w1].
  simpl in Hg.
  destruct (HealthyFacts.gerar_embeddings_para_chunks_saudavel amb d Hd Hc
              Hemb (map (Store.get h) refs) w1)
    as (embs & Hb & Hlen & Hdim).
  { apply Forall_fmap. eapply Forall_impl; [exact Hwf|]. by intros l [_ ?]. }
  destruct (Client.gerar_embeddings_para_chunks amb _ w1) as [embs' w2].
  simpl in Hb. subst embs'. rewrite length_map in Hlen.
  destruct (HealthyFacts.selecionar_ok h refs embs eg (7 # 10) Hwf Hlen)
    as (res & h' & -> & Hres & Hle & Hnil).
  { destruct Hg as [Hz|Hg]; [by left|right].
    eapply Forall_impl; [exact Hdim|]. intros e He. by rewrite He, Hg. }
  destruct (AppFacts.gerar_texto_o4_mini_spec amb (map (Store.get h') res)
              tipo_saida tamanho_resumo w2 Hd Hc Hres)
    as (prompt & Hcalls & Hsuc & _).
  destruct (RunFacts.gerar_texto_cases amb (map (Store.get h') res)
              tipo_saida tamanho_resumo w2) as [_ Hcases].
  destruct (Client.gerar_texto_o4_mini amb _ tipo_saida tamanho_resumo w2)
    as [resposta w3].
  simpl in Hcalls, Hsuc, Hcases. simpl.
  destruct (Hchat prompt) as (content & tokens & Hanswer).
  rewrite Hanswer in Hsuc.
  destruct Hcases as [(_ & Hfalse & _)|(prompt' & Hcalls' & _ & Hr)];
    [by rewrite Hfalse in Hsuc|].
  unfold ClientSpec.novos_pedidos in Hcalls'.
  assert (prompt' = prompt) as ->.
  { rewrite Hcalls in Hcalls'. apply app_inv_head in Hcalls'.
    by injection Hcalls' as ->. }
  rewrite Hanswer in Hr. subst resposta.
  unfold App.com_resposta. simpl.
  split; [done|]. split; [done|]. split.
  { exists prompt, content, tokens. by rewrite Hcalls, last_snoc. }
  split; [done|]. split; [done|]. eexists. by rewrite Hlen.
Qed.

Lemma processar_texto_healthy_run_witness :
  let out := App.processar_texto Cenario.amb_ok Exemplo.documento "Resumo"
               "Medio" false Exemplo.mundo0 in
  let r := out.1.1 in
  App.sucesso r = true
  ∧ App.erro r = None
  ∧ (∃ prompt content total_tokens,
       last (Client.chamadas out.2) = Some (Client.ChatCreate prompt)
       ∧ Client.chat_create Cenario.amb_ok prompt
         = Py.Ok (content, total_tokens)
       ∧ App.texto_gerado r = Str.strip content)
  ∧ (length (App.chunks_selecionados r) ≤ length (App.chunks r))%nat
  ∧ (App.chunks r = [] ↔ App.chunks_selecionados r = [])
  ∧ ∃ dimensao,
      App.embeddings_info r
      = Some (dimensao, Z.of_nat (length (App.chunks r)) + 1).
Proof.
  apply (processar_texto_healthy_run Cenario.amb_ok 2 Exemplo.documento
           "Resumo" "Medio" false Exemplo.mundo0).
  - reflexivity.
  - reflexivity.
  - intros input. eexists. split; [reflexivity|].
    split; [apply length_map|].
    apply Forall_forall. intros e He.
    apply list_elem_of_fmap in He as (t & -> & _). reflexivity.
  - intros prompt. eexists _, _. reflexivity.
Defined.

(** ** From the chunk builder to the embedding endpoint *)

Module PipelineFacts.

Import Client ClientSpec ChunkSpec StrSpec.

Lemma textos_de_bem_formados ds :
  Forall bem_formado ds →
  ∃ ts, textos_de ds = Py.Ok ts ∧ Forall trimmed ts.
Proof.
  induction 1 as [|d ds (t & n & Hd & Ht & _) Hds (ts & IH & Hts)]; simpl.
  - by exists [].
  - unfold texto_de. rewrite Hd. cbn. rewrite IH. cbn.
    eexists. split; [done|]. by constructor.
Qed.

Lemma limpar_para_batch_trimmed t :
  trimmed t → limpar_para_batch t = truncar_texto_para_embedding t 8000.
Proof.
  intros Ht. unfold limpar_para_batch.
  rewrite (StripFacts.strip_trimmed_id t Ht).
  by destruct Ht as [(a & r & -> & _) _].
Qed.

Lemma gerar_embeddings_batch_trimmed amb ts w :
  Forall trimmed ts →
  let out := gerar_embeddings_batch amb ts w in
  novos_pedidos w out.2 []
  ∨ novos_pedidos w out.2
      [EmbeddingsCreate
         (map (λ t, truncar_texto_para_embedding t 8000) ts)].
Proof.
  intros Hts. unfold novos_pedidos, gerar_embeddings_batch.
  case_bool_decide; [left; simpl; by rewrite app_nil_r|].
  destruct (OPENAI_DISPONIVEL amb); simpl.
  2:{ left. destruct (SendFacts.sortear_spec amb (length ts) w) as [_ ->].
      by rewrite app_nil_r. }
  destruct (inicializar_cliente amb); simpl;
    [|left; by rewrite app_nil_r].
  case_bool_decide; [left; simpl; by rewrite app_nil_r|].
  unfold mbind, M_bind, api_embeddings. right.
  assert (Heq : map limpar_para_batch ts
                = map (λ t, truncar_texto_para_embedding t 8000) ts).
  { apply map_ext_Forall. eapply Forall_impl; [exact Hts|].
    apply limpar_para_batch_trimmed. }
  rewrite Heq.
  by destruct (embeddings_create amb _).
Qed.

End PipelineFacts.

(** X28. The chunks [criar_chunks] builds always go through
    [gerar_embeddings_para_chunks]: the call never raises, and it sends
    at most one request, which holds the texts of the chunks in order,
    each as it is in the chunk, only cut to the 32000 characters of the
    token limit; no chunk text is replaced by the placeholder for empty
    texts. *)
Theorem criar_chunks_embedding_request (amb : Client.ambiente)
    (nlp : spacy_model) (texto : list N) (tamanho_chunk overlap : Z)
    (usar_spacy : bool) (w : Client.mundo) :
  let chunks := criar_chunks nlp texto tamanho_chunk overlap usar_spacy in
  let out := Client.gerar_embeddings_para_chunks amb chunks w in
  ∃ textos,
    Client.textos_de chunks = Py.Ok textos
    ∧ (∃ es, out.1 = Py.Ok es)
    ∧ (ClientSpec.novos_pedidos w out.2 []
       ∨ ClientSpec.novos_pedidos w out.2
           [Client.EmbeddingsCreate
              (map (λ t, truncar_texto_para_embedding t 8000) textos)]).
Proof.
  intros chunks out. subst out.
  assert (Hbf : Forall ChunkSpec.bem_formado chunks).
  { unfold chunks, criar_chunks, Chunker.agrupar.
    apply ChunkFacts.inv_salvar, ChunkFacts.inv_fold, ChunkFacts.inv_inicial. }
  destruct (PipelineFacts.textos_de_bem_formados chunks Hbf)
    as (ts & Hts & Htrim).
  exists ts. split; [done|].
  unfold Client.gerar_embeddings_para_chunks.
  case_bool_decide as Hnil.
  { split; [by eexists|]. left. unfold ClientSpec.novos_pedidos. simpl.
    by rewrite app_nil_r. }
  rewrite Hts. unfold mbind, Client.M_bind.
  pose proof (PipelineFacts.gerar_embeddings_batch_trimmed amb ts w Htrim)
    as Hreq.
  destruct (Client.gerar_embeddings_batch amb ts w) as [es w'].
  split; [by eexists|done].
Qed.

(** ** The chunk builder: how many chunks *)

Module CountFacts.

Import Chunker CountSpec.

Lemma salvar_length st :
  (length (chunks (salvar st)) ≤ length (chunks st) + 1)%nat.
Proof.
  destruct (ChunkerFacts.salvar_cases st) as [(_ & -> & _)|[_ ->]];
    [rewrite length_app; simpl|]; lia.
Qed.

Lemma salvar_vazio st :
  chunks st = [] → chunk_atual st = [] → chunks (salvar st) = [].
Proof.
  intros Hc Ha.
  destruct (ChunkerFacts.salvar_cases st) as [(Ht & _)|[_ ->]]; [|done].
  rewrite Ha in Ht. discriminate Ht.
Qed.

Lemma inv_contagem_passo tamanho overlap k st sentenca :
  inv_contagem k st →
  inv_contagem (S k) (passo tamanho overlap st sentenca).
Proof.
  intros Hinv. right.
  destruct (ChunkerFacts.passo_chunks tamanho overlap st sentenca)
    as [[-> _]|[-> _]].
  - destruct Hinv as [(-> & -> & _)|Hle]; simpl; lia.
  - destruct Hinv as [(-> & Hc & Ha)|Hle].
    + rewrite salvar_vazio by done. simpl. lia.
    + pose proof (salvar_length st). lia.
Qed.

Lemma inv_contagem_fold tamanho overlap l : ∀ k st,
  inv_contagem k st →
  inv_contagem (k + length l) (fold_left (passo tamanho overlap) l st).
Proof.
  induction l as [|s l IH]; intros k st Hinv; simpl.
  - by rewrite Nat.add_0_r.
  - replace (k + S (length l))%nat with (S k + length l)%nat by lia.
    by apply IH, inv_contagem_passo.
Qed.

End CountFacts.

(** X29. [criar_chunks] never returns more chunks than the segmentation
    step found segments, for every target size and every overlap. *)
Theorem criar_chunks_count_bound (nlp : spacy_model) (texto : list N)
    (tamanho_chunk overlap : Z) (usar_spacy : bool) :
  (length (criar_chunks nlp texto tamanho_chunk overlap usar_spacy)
   ≤ length (Chunker.segmentar nlp usar_spacy texto))%nat.
Proof.
  unfold criar_chunks, Chunker.agrupar.
  generalize (Chunker.segmentar nlp usar_spacy texto). intros l.
  pose proof (CountFacts.inv_contagem_fold tamanho_chunk overlap l 0
                Chunker.inicial) as Hinv.
  simpl in Hinv.
  destruct Hinv as [(Hl & Hc & Ha)|Hle]; [left; by repeat split| |].
  - rewrite CountFacts.salvar_vazio by done. simpl. lia.
  - pose proof (CountFacts.salvar_length
                  (fold_left (Chunker.passo tamanho_chunk overlap) l
                     Chunker.inicial)).
    lia.
Qed.

(** ** The spaCy sentence segmenter *)

